(** * Content-Security-Policy reconciliation of helix-html-pipeline

    A shallow embedding of the two copies of the CSP step:
    - [src/steps/render.js] (module [Render]), which works on the children of
      a parsed head fragment, and
    - the tree module with [getMetaCSP] / [contentSecurityPolicy] (module
      [Csp]), which works on a whole hast tree through [hast-util-select].

    Modelling choices:
    - strings are sequences of code units below 256;
    - the JS object built by [parseCSP], the [properties] object of a hast
      element and the response headers are finite maps with string keys;
    - the step mutates the tree and the response in place: here it takes
      both and returns both, and a reference to a node (what [find] and
      [select] return) is the path of child indices to it;
    - [crypto.randomBytes(16).toString('base64')] is an argument, [nonce];
    - a call that can end in a [TypeError] returns an [outcome];
    - [hast-util-select] and [unist-util-remove] are libraries, embedded from
      their documented behaviour as far as the source uses them;
    - the rest of render.js (the head built from the page metadata and the
      [render] step itself) takes hastscript's [h], the HTML parser and the
      JSON round trip as variables. *)

From Stdlib Require Import Ascii.
From stdpp Require Import base option list strings gmap.

(** ** JS string primitives used by the source *)

Module Js.

(** Code units that [String.prototype.trim] strips, below 256: TAB, LF, VT,
    FF, CR, SPACE and NO-BREAK SPACE. *)
Definition is_ws (c : ascii) : bool :=
  match nat_of_ascii c with
  | 9 | 10 | 11 | 12 | 13 | 32 | 160 => true
  | _ => false
  end.

Fixpoint trimStart (s : string) : string :=
  match s with
  | "" => ""
  | String c s' => if is_ws c then trimStart s' else s
  end.

Fixpoint trimEnd (s : string) : string :=
  match s with
  | "" => ""
  | String c s' =>
      match trimEnd s' with
      | "" => if is_ws c then "" else String c ""
      | t => String c t
      end
  end.

(** [s.trim()] *)
Definition trim (s : string) : string := trimEnd (trimStart s).

(** [s.split(c)] for a separator of one code unit: never the empty list. *)
Fixpoint split (c : ascii) (s : string) : list string :=
  match s with
  | "" => [""]
  | String a s' =>
      if decide (a = c) then "" :: split c s'
      else match split c s' with
           | [] => [String a ""]
           | x :: xs => String a x :: xs
           end
  end.

(** [l.join(sep)] *)
Definition join (sep : string) (l : list string) : string :=
  String.concat sep l.

(** [s.includes(needle)] *)
Fixpoint includes (needle s : string) : bool :=
  String.prefix needle s
  || match s with
     | "" => false
     | String _ s' => includes needle s'
     end.

(** [s.replaceAll(needle, repl)] for a non-empty [needle] and a replacement
    without [$] patterns: the occurrences are taken from the left and do not
    overlap; [skip] counts the code units of a match still to be dropped. *)
Fixpoint replaceFrom (needle repl : string) (skip : nat) (s : string) : string :=
  match s with
  | "" => ""
  | String a s' =>
      match skip with
      | S k => replaceFrom needle repl k s'
      | 0 =>
          if String.prefix needle s
          then repl +:+ replaceFrom needle repl (String.length needle - 1) s'
          else String a (replaceFrom needle repl 0 s')
      end
  end.

Definition replaceAll (needle repl s : string) : string :=
  replaceFrom needle repl 0 s.

(** [c.toLowerCase()] on code units below 256: A-Z and the accented
    capitals 192-222 except the multiplication sign 215. *)
Definition lower_char (c : ascii) : ascii :=
  let n := nat_of_ascii c in
  if (65 <=? n) && (n <=? 90) then ascii_of_nat (n + 32)
  else if (192 <=? n) && (n <=? 222) && negb (n =? 215) then ascii_of_nat (n + 32)
  else c.

Fixpoint toLowerCase (s : string) : string :=
  match s with
  | "" => ""
  | String c s' => String (lower_char c) (toLowerCase s')
  end.

(** [o?.includes(needle)], as a condition. *)
Definition includes_opt (needle : string) (o : option string) : bool :=
  match o with
  | Some s => includes needle s
  | None => false
  end.

(** A string that may be [undefined], seen through JS truthiness: the
    string when it is defined and not empty. *)
Definition if_truthy (o : option string) : option string :=
  match o with
  | Some s => if String.eqb s "" then None else Some s
  | None => None
  end.

End Js.

(** ** parseCSP

    Both files contain the same function, character for character:
<<
    function parseCSP(csp) {
      const parts = csp.split(';');
      const result = {};
      parts.forEach((part) => {
        const [directive, ...values] = part.trim().split(' ');
        result[directive] = values.join(' ');
      });
      return result;
    }
>> *)

(** [result[key] = value] on a plain object, for a string [value]: the key
    [__proto__] reaches the setter inherited from [Object.prototype], which
    ignores a value that is not an object, so no own property is stored. *)
Definition set_prop (key value : string) (result : gmap string string)
  : gmap string string :=
  if decide (key = "__proto__") then result else <[key := value]> result.

(** [const [directive, ...values] = part.trim().split(' ')] *)
Definition directive_of (part : string) : string :=
  hd "" (Js.split " "%char (Js.trim part)).

Definition values_of (part : string) : list string :=
  tl (Js.split " "%char (Js.trim part)).

(** [values.join(' ')] *)
Definition value_of (part : string) : string := Js.join " " (values_of part).

Definition parse_part (result : gmap string string) (part : string)
  : gmap string string :=
  set_prop (directive_of part) (value_of part) result.

Definition parseCSP (csp : string) : gmap string string :=
  foldl parse_part ∅ (Js.split ";"%char csp).

(** ** hast trees

    A property value is a string, a list of space-separated tokens (as the
    parser produces for [rel], [httpEquiv], [className]) or a boolean;
    numeric property values play no part in the step and are left out. *)

Inductive PropValue :=
  | PStr (s : string)
  | PList (l : list string)
  | PBool (b : bool).

#[global] Instance PropValue_eq_dec : EqDecision PropValue.
Proof. solve_decision. Defined.

Unset Elimination Schemes.
Inductive node :=
  | Element (tagName : string) (properties : gmap string PropValue)
            (children : list node)
  | Text (value : string)
  | Comment (value : string)
  | Doctype.
Set Elimination Schemes.

(** Induction on a node with the hypothesis for every child. *)
Section node_induction.
Variable P : node → Prop.
Hypothesis element_case : ∀ t pr ch, Forall P ch → P (Element t pr ch).
Hypothesis text_case : ∀ v, P (Text v).
Hypothesis comment_case : ∀ v, P (Comment v).
Hypothesis doctype_case : P Doctype.

Fixpoint node_ind (n : node) : P n :=
  match n with
  | Element t pr ch =>
      element_case t pr ch
        ((fix all (l : list node) : Forall P l :=
            match l with
            | [] => @List.Forall_nil _ P
            | x :: l' => @List.Forall_cons _ P x l' (node_ind x) (all l')
            end) ch)
  | Text v => text_case v
  | Comment v => comment_case v
  | Doctype => doctype_case
  end.
End node_induction.

(** A reference to a node of the tree is the list of child indices that
    leads to it from the root; the tree handed to the step is a hast root,
    given by its list of children. *)
Abbreviation path := (list nat).

Module Hast.

(** JS truthiness of a property that may be absent. *)
Definition truthy (o : option PropValue) : bool :=
  match o with
  | Some (PStr s) => negb (String.eqb s "")
  | Some (PList _) => true
  | Some (PBool b) => b
  | None => false
  end.

Fixpoint node_at (q : path) (n : node) : option node :=
  match q with
  | [] => Some n
  | i :: q' =>
      match n with
      | Element _ _ ch => ch !! i ≫= node_at q'
      | _ => None
      end
  end.

(** Dereference: the node a path points to. The empty path is the root
    itself, which is not a node of the list. *)
Definition at_path (p : path) (tree : list node) : option node :=
  match p with
  | [] => None
  | i :: q => tree !! i ≫= node_at q
  end.

(** Tag name and properties of the element a path points to. *)
Definition element_at (p : path) (tree : list node)
  : option (string * gmap string PropValue) :=
  match at_path p tree with
  | Some (Element t pr _) => Some (t, pr)
  | _ => None
  end.

Fixpoint alter_node (g : gmap string PropValue → gmap string PropValue)
    (q : path) (n : node) : node :=
  match q, n with
  | [], Element t pr ch => Element t (g pr) ch
  | i :: q', Element t pr ch => Element t pr (alter (alter_node g q') i ch)
  | _, _ => n
  end.

(** In-place change of the [properties] object of the element at [p]. *)
Definition alter_at (g : gmap string PropValue → gmap string PropValue)
    (p : path) (tree : list node) : list node :=
  match p with
  | [] => tree
  | i :: q => alter (alter_node g q) i tree
  end.

(** The elements of a tree in document order, as tag name and properties. *)
Fixpoint elements_of (n : node) : list (string * gmap string PropValue) :=
  match n with
  | Element t pr ch => (t, pr) :: flat_map elements_of ch
  | _ => []
  end.

Definition elements (tree : list node) : list (string * gmap string PropValue) :=
  flat_map elements_of tree.

(** Applies [g] to the properties of every element, at any depth. *)
Fixpoint map_node (g : string → gmap string PropValue → gmap string PropValue)
    (n : node) : node :=
  match n with
  | Element t pr ch => Element t (g t pr) (map (map_node g) ch)
  | _ => n
  end.

(** Applies [g] to the properties of one node, not to its descendants. *)
Definition map_top (g : string → gmap string PropValue → gmap string PropValue)
    (n : node) : node :=
  match n with
  | Element t pr ch => Element t (g t pr) ch
  | _ => n
  end.

(** A reference into the first node of [l] in which [find] finds one; the
    first node of [l] has index [i]. *)
Fixpoint first_in (find : node → option path) (i : nat) (l : list node)
  : option path :=
  match l with
  | [] => None
  | n :: l' =>
      match find n with
      | Some q => Some (i :: q)
      | None => first_in find (S i) l'
      end
  end.

(** First element in document order, the node itself included, that
    passes [test]. *)
Fixpoint find_node (test : string → gmap string PropValue → bool) (n : node)
  : option path :=
  match n with
  | Element t pr ch =>
      if test t pr then Some [] else first_in (find_node test) 0 ch
  | _ => None
  end.

Definition find_first (test : string → gmap string PropValue → bool)
    (tree : list node) : option path :=
  first_in (find_node test) 0 tree.

End Hast.

(** ** hast-util-select, as far as the source uses it

    A selector is a tag name with at most one attribute test [[attr=value]].
    The attribute test reads the property the schema maps the attribute to,
    normalises it to text (a list is joined by spaces and trimmed, [true]
    becomes the attribute name) and compares it with the value exactly. *)

Module Select.

Record selector := {
  sel_tag : string;
  sel_attr : option (string * string * string)
    (* property name, attribute name, expected value *)
}.

Definition normalizeValue (attribute : string) (v : option PropValue)
  : option string :=
  match v with
  | Some (PStr s) => Some s
  | Some (PList []) => None
  | Some (PList l) => Some (Js.trim (Js.join " " l))
  | Some (PBool true) => Some attribute
  | Some (PBool false) => None
  | None => None
  end.

Definition matches (sel : selector) (t : string) (pr : gmap string PropValue)
  : bool :=
  String.eqb t (sel_tag sel)
  && match sel_attr sel with
     | None => true
     | Some (property, attribute, value) =>
         match normalizeValue attribute (pr !! property) with
         | Some s => String.eqb s value
         | None => false
         end
     end.

(** [select(sel, tree)]: a reference to the first matching element in
    document order, if any. *)
Definition select (sel : selector) (tree : list node) : option path :=
  Hast.find_first (matches sel) tree.

(** [selectAll(sel, tree).forEach((el) => { el.properties = g(el.properties) })] *)
Definition forEach_selected (sel : selector)
    (g : gmap string PropValue → gmap string PropValue) (tree : list node)
  : list node :=
  map (Hast.map_node (λ t pr, if matches sel t pr then g pr else pr)) tree.

Definition script : selector := {| sel_tag := "script"; sel_attr := None |}.
Definition style : selector := {| sel_tag := "style"; sel_attr := None |}.
Definition link_stylesheet : selector :=
  {| sel_tag := "link"; sel_attr := Some ("rel", "rel", "stylesheet") |}.
Definition meta_http_equiv (value : string) : selector :=
  {| sel_tag := "meta"; sel_attr := Some ("httpEquiv", "http-equiv", value) |}.

End Select.

(** ** unist-util-remove

    [remove(tree, null, node)] walks the tree and drops the nodes that pass
    the test; with a node object as the test these are the nodes that share
    its [properties] and [children] objects, that is the node itself. With
    the default [cascade], a parent that had children and lost all of them
    is dropped too; the tree itself is never dropped. *)

Module Unist.

Fixpoint remove (p : path) (tree : list node) : list node :=
  match p with
  | [] => tree
  | [i] => delete i tree
  | i :: q =>
      match tree !! i with
      | Some (Element t pr ch) =>
          match ch, remove q ch with
          | _ :: _, [] => delete i tree
          | _, ch' => <[i := Element t pr ch']> tree
          end
      | _ => tree
      end
  end.

End Unist.

(** ** The response *)

Record response := {
  headers : gmap string string;
  body : option string
}.

Definition headers_set (name value : string) (res : response) : response :=
  {| headers := <[name := value]> (headers res); body := body res |}.

(** ** Calls that may throw *)

Inductive outcome (A : Type) :=
  | Returns (a : A)
  | Throws.
Arguments Returns {A} a.
Arguments Throws {A}.

Definition bind {A B} (m : outcome A) (k : A → outcome B) : outcome B :=
  match m with
  | Returns a => k a
  | Throws => Throws
  end.

Notation "'do' x <- m ;; k" := (bind m (λ x, k))
  (at level 10, x pattern, m at level 99, k at level 200, only parsing).

(** [el.properties.content] used as a string: a [TypeError] when the
    property is missing. hast gives [content] a string value; a boolean has
    no [includes] and throws too, and a list, which the parser does not
    produce for [content], is not followed further and counts as a throw. *)
Definition content_of (pr : gmap string PropValue) : outcome string :=
  match pr !! "content" with
  | Some (PStr s) => Returns s
  | _ => Throws
  end.

Definition properties_at (p : path) (tree : list node)
  : outcome (gmap string PropValue) :=
  match Hast.element_at p tree with
  | Some (_, pr) => Returns pr
  | None => Throws
  end.

Definition CSP : string := "content-security-policy".

(** [el.properties.nonce = nonce] *)
Definition set_nonce (nonce : string) (pr : gmap string PropValue)
  : gmap string PropValue :=
  <["nonce" := PStr nonce]> pr.

(** [text.replaceAll('nonce', `nonce-${nonce}`)] *)
Definition rewrite_nonce (nonce text : string) : string :=
  Js.replaceAll "nonce" ("nonce-" +:+ nonce) text.

(** [metaCSP.properties.content = value] *)
Definition set_content (value : string) (pr : gmap string PropValue)
  : gmap string PropValue :=
  <["content" := PStr value]> pr.

(** ** The tree module ([getMetaCSP], [contentSecurityPolicy])

    [nonce] stands for [crypto.randomBytes(16).toString('base64')], drawn
    once in [createAndApplyNonce]; the base64 alphabet has no [$], so the
    replacement text of [replaceAll] is taken literally. A reference that
    [select] or [find] returned always points to an element: the [Throws] of
    [properties_at] is never reached. *)

Module Csp.

Definition shouldApplyNonce (csp : string) : bool * bool :=
  let parsedCSP := parseCSP csp in
  (Js.includes_opt "nonce" (parsedCSP !! "script-src"),
   Js.includes_opt "nonce" (parsedCSP !! "style-src")).

Definition createAndApplyNonce (nonce : string) (res : response)
    (tree : list node) (metaCSP : option path) (headersCSP : option string)
  : outcome (response * list node) :=
  let scriptNonceResult := false in
  let styleNonceResult := false in
  do (tree, scriptNonceResult, styleNonceResult) <-
    match metaCSP with
    | Some m =>
        do pr <- properties_at m tree;;
        do content <- content_of pr;;
        let '(scriptNonce, styleNonce) := shouldApplyNonce content in
        Returns (Hast.alter_at (set_content (rewrite_nonce nonce content)) m tree,
                 scriptNonceResult || scriptNonce,
                 styleNonceResult || styleNonce)
    | None => Returns (tree, scriptNonceResult, styleNonceResult)
    end;;
  let '(res, scriptNonceResult, styleNonceResult) :=
    match Js.if_truthy headersCSP with
    | Some h =>
        let '(scriptNonce, styleNonce) := shouldApplyNonce h in
        (headers_set CSP (rewrite_nonce nonce h) res,
         scriptNonceResult || scriptNonce,
         styleNonceResult || styleNonce)
    | None => (res, scriptNonceResult, styleNonceResult)
    end in
  let tree :=
    if scriptNonceResult
    then Select.forEach_selected Select.script (set_nonce nonce) tree
    else tree in
  let tree :=
    if styleNonceResult
    then Select.forEach_selected Select.link_stylesheet (set_nonce nonce)
           (Select.forEach_selected Select.style (set_nonce nonce) tree)
    else tree in
  Returns (res, tree).

Definition getMetaCSP (tree : list node) : option path :=
  match Select.select (Select.meta_http_equiv "content-security-policy") tree with
  | Some m => Some m
  | None => Select.select (Select.meta_http_equiv "Content-Security-Policy") tree
  end.

Definition getHeaderCSP (res : response) : option string :=
  headers res !! CSP.

Definition contentSecurityPolicy (nonce : string) (res : response)
    (tree : list node) : outcome (response * list node) :=
  let metaCSP := getMetaCSP tree in
  let headersCSP := getHeaderCSP res in
  match metaCSP, Js.if_truthy headersCSP with
  | None, None => Returns (res, tree)
  | _, _ =>
      do withNonce <-
        (do inMeta <-
           match metaCSP with
           | Some m =>
               do pr <- properties_at m tree;;
               do content <- content_of pr;;
               Returns (Js.includes "nonce" content)
           | None => Returns false
           end;;
         Returns (inMeta || Js.includes_opt "nonce" (Js.if_truthy headersCSP)));;
      do (res, tree) <-
        (if withNonce
         then createAndApplyNonce nonce res tree metaCSP headersCSP
         else Returns (res, tree));;
      match metaCSP, Js.if_truthy headersCSP with
      | Some m, None =>
          do pr <- properties_at m tree;;
          if negb (Hast.truthy (pr !! "keep-as-meta"))
          then
            (* the content is the string read above, or its rewriting *)
            do content <- content_of pr;;
            Returns (headers_set CSP content res, Unist.remove m tree)
          else
            Returns (res, Hast.alter_at (delete "keep-as-meta") m tree)
      | _, _ => Returns (res, tree)
      end
  end.

(** The text [http-equiv="value"], with its double quotes. *)
Definition http_equiv_attribute (value : string) : string :=
  "http-equiv=" +:+ String "034" (value +:+ String "034" "").

(** [res.body?.includes(a) || res.body?.includes(b)]: [undefined] without a
    body, a boolean otherwise. *)
Definition checkResponseBodyForMetaBasedCSP (res : response) : option bool :=
  match body res with
  | Some text =>
      Some (Js.includes (http_equiv_attribute "content-security-policy") text
            || Js.includes (http_equiv_attribute "Content-Security-Policy") text)
  | None => None
  end.

End Csp.

(** ** render.js *)

Module Render.

(** [el.tagName === 'meta' &&
     el.properties?.httpEquiv?.[0]?.toLowerCase() === 'content-security-policy'] *)
Definition is_meta_csp (el : node) : bool :=
  match el with
  | Element t pr _ =>
      String.eqb t "meta"
      && match pr !! "httpEquiv" with
         | Some (PList (x :: _)) =>
             String.eqb (Js.toLowerCase x) "content-security-policy"
         | _ => false
         end
  | _ => false
  end.

(** [el.tagName === 'style' ||
     (el.tagName === 'link' && el.properties.rel?.[0] === 'stylesheet')] *)
Definition is_style (t : string) (pr : gmap string PropValue) : bool :=
  String.eqb t "style"
  || (String.eqb t "link"
      && match pr !! "rel" with
         | Some (PList (x :: _)) => String.eqb x "stylesheet"
         | _ => false
         end).

Definition createAndApplyNonce (nonce : string) (res : response)
    (head : list node) (metaCSP : option path) (headersCSP : option string)
  : outcome (response * list node) :=
  let scriptNonce := false in
  let styleNonce := false in
  do (head, scriptNonce, styleNonce) <-
    match metaCSP with
    | Some m =>
        do pr <- properties_at m head;;
        do content <- content_of pr;;
        let parsedMetaCSP := parseCSP content in
        let scriptNonce :=
          scriptNonce || Js.includes_opt "nonce" (parsedMetaCSP !! "script-src") in
        let styleNonce :=
          styleNonce || Js.includes_opt "nonce" (parsedMetaCSP !! "style-src") in
        Returns (Hast.alter_at (set_content (rewrite_nonce nonce content)) m head,
                 scriptNonce, styleNonce)
    | None => Returns (head, scriptNonce, styleNonce)
    end;;
  let '(res, scriptNonce, styleNonce) :=
    match Js.if_truthy headersCSP with
    | Some h =>
        let parsedHeaderCSP := parseCSP h in
        let scriptNonce :=
          scriptNonce || Js.includes_opt "nonce" (parsedHeaderCSP !! "script-src") in
        let styleNonce :=
          styleNonce || Js.includes_opt "nonce" (parsedHeaderCSP !! "style-src") in
        (headers_set CSP (rewrite_nonce nonce h) res, scriptNonce, styleNonce)
    | None => (res, scriptNonce, styleNonce)
    end in
  let head :=
    if scriptNonce
    then map (Hast.map_top (λ t pr,
                if String.eqb t "script" then set_nonce nonce pr else pr)) head
    else head in
  let head :=
    if styleNonce
    then map (Hast.map_top (λ t pr,
                if is_style t pr then set_nonce nonce pr else pr)) head
    else head in
  Returns (res, head).

(** [head.children.find((el) => ...)]: a reference to the first direct
    child that passes the test. *)
Definition find_meta (head : list node) : option path :=
  Hast.first_in (λ el, if is_meta_csp el then Some [] else None) 0 head.

Definition contentSecurityPolicy (nonce : string) (res : response)
    (head : list node) : outcome (response * list node) :=
  let metaCSP := find_meta head in
  let headersCSP := headers res !! CSP in
  match metaCSP, Js.if_truthy headersCSP with
  | None, None => Returns (res, head)
  | _, _ =>
      do withNonce <-
        (do inMeta <-
           match metaCSP with
           | Some m =>
               do pr <- properties_at m head;;
               do content <- content_of pr;;
               Returns (Js.includes "nonce" content)
           | None => Returns false
           end;;
         Returns (inMeta || Js.includes_opt "nonce" (Js.if_truthy headersCSP)));;
      do (res, head) <-
        (if withNonce
         then createAndApplyNonce nonce res head metaCSP headersCSP
         else Returns (res, head));;
      match metaCSP, Js.if_truthy headersCSP with
      | Some m, None =>
          do pr <- properties_at m head;;
          if negb (Hast.truthy (pr !! "keep-as-meta"))
          then
            (* the content is the string read above, or its rewriting *)
            do content <- content_of pr;;
            Returns (headers_set CSP content res, Unist.remove m head)
          else
            Returns (res, Hast.alter_at (delete "keep-as-meta") m head)
      | _, _ => Returns (res, head)
      end
  end.

(** *** The rest of render.js

    [h] is hastscript's element constructor, given a tag name, a properties
    object with string values and the children, a string child being handed
    over as a text node. *)

(** [function appendElement($parent, $el)], on the children of [$parent]. *)
Definition appendElement (children : list node) (el : option node)
  : list node :=
  match el with
  | Some el => children ++ [el]
  | None => children
  end.

(** [attrs[i]] used as a property key. *)
Definition key_of (key : option string) : string := default "undefined" key.

(** The loop of [createElement]: [None] when it returns [null]. *)
Fixpoint collect (attrs : list (option string)) (properties : gmap string string)
  : option (gmap string string) :=
  match attrs with
  | [] => Some properties
  | key :: rest =>
      match rest with
      | Some value :: rest' =>
          collect rest' (set_prop (key_of key) value properties)
      | _ => None
      end
  end.

Section hastscript.
Variable h : string → gmap string string → list node → node.

(** [function createElement(name, ...attrs)] *)
Definition createElement (name : string) (attrs : list (option string))
  : option node :=
  match collect attrs ∅ with
  | Some properties => Some (h name properties [])
  | None => None
  end.

End hastscript.

(** [jsonLd.replaceAll('<', '&#x3c;').replaceAll('>', '&#x3e;')] *)
Definition escape_angles (jsonLd : string) : string :=
  Js.replaceAll ">" "&#x3e;" (Js.replaceAll "<" "&#x3c;" jsonLd).

(** [function sanitizeJsonLd(jsonLd)] for a string; [json text] stands for
    [JSON.stringify(JSON.parse(text))], which throws on text that is not
    JSON. *)
Definition sanitizeJsonLd (json : string → outcome string) (jsonLd : string)
  : outcome string :=
  json (Js.trim (escape_angles jsonLd)).

(** A value of [meta.page]: a string or an array, whose items may be
    [undefined]. *)
Inductive page_value :=
  | PageStr (s : string)
  | PageList (l : list (option string)).

Record page_meta := {
  title : option string;
  canonical : option string;
  page : list (string * option page_value);  (* [Object.entries(meta.page)] *)
  feed : option string
}.

Record pipeline_state (hast : Type) := {
  selector : option string;      (* [state.info.selector] *)
  content_hast : hast;           (* [state.content.hast] *)
  content_meta : page_meta;      (* [state.content.meta] *)
  head_html : option string      (* [state.config?.head?.html] *)
}.
Arguments selector {hast} _.
Arguments content_hast {hast} _.
Arguments content_meta {hast} _.
Arguments head_html {hast} _.

(** [res.document] after the step. *)
Inductive document (hast : Type) :=
  | BodyOnly (body : hast)
  | RootDocument (children : list node).
Arguments BodyOnly {hast} body.
Arguments RootDocument {hast} children.

(** [$el.children.push(...nodes)] on an element. *)
Definition push_children (el : node) (nodes : list node) : node :=
  match el with
  | Element t pr ch => Element t pr (ch ++ nodes)
  | _ => el
  end.

Section render.
Variable hast : Type.
Variable h : string → gmap string string → list node → node.
(** The children [h('main', hast)] gets. *)
Variable main_children : hast → list node.
(** [await unified().use(rehypeParse, { fragment: true }).parse(headHtml)],
    as the children of the root it returns. *)
Variable parse : string → list node.
(** [JSON.stringify(JSON.parse(text))] *)
Variable json : string → outcome string.
(** [cleanupHeaderValue(e.message)] for the error [sanitizeJsonLd] throws on
    a value. *)
Variable error_text : page_value → string.

(** The body of the loop over [Object.entries(meta.page)]: the children of
    [$head] and the variable [jsonLd]. *)
Definition page_entry (acc : list node * option page_value)
    (entry : string * option page_value) : list node * option page_value :=
  let '(children, jsonLd) := acc in
  let '(name, value) := entry in
  if String.eqb (Js.toLowerCase name) "json-ld" then (children, value)
  else
    let attr :=
      if Js.includes ":" name && negb (String.prefix "twitter:" name)
      then "property" else "name" in
    match value with
    | Some (PageList items) =>
        (foldl (λ children v,
                  appendElement children
                    (createElement h "meta"
                       [Some attr; Some name; Some "content"; v]))
               children items,
         jsonLd)
    | Some (PageStr text) =>
        (appendElement children
           (createElement h "meta"
              [Some attr; Some name; Some "content"; Some text]),
         jsonLd)
    | None =>
        (appendElement children
           (createElement h "meta" [Some attr; Some name; Some "content"; None]),
         jsonLd)
    end.

(** The script element for a truthy [jsonLd]. *)
Definition json_ld_script (jsonLd : page_value) : node :=
  let props : gmap string string := {[ "type" := "application/ld+json" ]} in
  let sanitized :=
    match jsonLd with
    | PageStr text => sanitizeJsonLd json text
    | PageList _ => Throws  (* an array has no [replaceAll] *)
    end in
  match sanitized with
  | Returns text => h "script" props [Text text]
  | Throws =>
      h "script"
        (<["data-error" := "error in json-ld: " +:+ error_text jsonLd]> props)
        [Text ""]
  end.

(** JS truthiness of [jsonLd]. *)
Definition truthy_value (value : option page_value) : option page_value :=
  match value with
  | Some (PageStr text) => if String.eqb text "" then None else value
  | Some (PageList _) => value
  | None => None
  end.

(** The children of [$head] before [head.html] is injected. *)
Definition head_from_meta (meta : page_meta) : list node :=
  let children := [] in
  let children :=
    match title meta with
    | Some text => children ++ [h "title" ∅ [Text text]]
    | None => children
    end in
  let children :=
    match Js.if_truthy (canonical meta) with
    | Some href =>
        appendElement children
          (createElement h "link"
             [Some "rel"; Some "canonical"; Some "href"; Some href])
    | None => children
    end in
  let '(children, jsonLd) := foldl page_entry (children, None) (page meta) in
  let children :=
    appendElement children
      (createElement h "link"
         [Some "rel"; Some "alternate";
          Some "type"; Some "application/xml+atom";
          Some "href"; feed meta;
          Some "title"; Some (default "undefined" (title meta) +:+ " feed")]) in
  match truthy_value jsonLd with
  | Some value => children ++ [json_ld_script value]
  | None => children
  end.

(** [export default async function render(state, req, res)]: the response
    and [res.document]. *)
Definition render (nonce : string) (state : pipeline_state hast)
    (res : response) : outcome (response * document hast) :=
  if bool_decide (selector state = Some "plain")
  then Returns (res, BodyOnly (content_hast state))
  else
    let children := head_from_meta (content_meta state) in
    do (res, children) <-
      match Js.if_truthy (head_html state) with
      | Some headHtml =>
          do (res, headHtml') <- contentSecurityPolicy nonce res (parse headHtml);;
          Returns (res, children ++ headHtml')
      | None => Returns (res, children)
      end;;
    Returns
      (res,
       RootDocument
         [Doctype;
          h "html" ∅
            [push_children (h "head" ∅ []) children;
             h "body" ∅
               [h "header" ∅ [];
                h "main" ∅ (main_children (content_hast state));
                h "footer" ∅ []]]]).

End render.

End Render.

(** ** The two call sites side by side *)

Inductive call_site :=
  | HeadFragment   (* render.js, on the parsed head fragment *)
  | DocumentTree.  (* the tree module, on a whole tree *)

Definition contentSecurityPolicy (s : call_site)
  : string → response → list node → outcome (response * list node) :=
  match s with
  | HeadFragment => Render.contentSecurityPolicy
  | DocumentTree => Csp.contentSecurityPolicy
  end.

(** The Meta source each call site selects. *)
Definition meta_source (s : call_site) : list node → option path :=
  match s with
  | HeadFragment => Render.find_meta
  | DocumentTree => Csp.getMetaCSP
  end.

(** The stamping loops of [createAndApplyNonce]. *)
Definition stamp_scripts (s : call_site) (nonce : string) (tree : list node)
  : list node :=
  match s with
  | HeadFragment =>
      map (Hast.map_top (λ t pr,
             if String.eqb t "script" then set_nonce nonce pr else pr)) tree
  | DocumentTree => Select.forEach_selected Select.script (set_nonce nonce) tree
  end.

Definition stamp_styles (s : call_site) (nonce : string) (tree : list node)
  : list node :=
  match s with
  | HeadFragment =>
      map (Hast.map_top (λ t pr,
             if Render.is_style t pr then set_nonce nonce pr else pr)) tree
  | DocumentTree =>
      Select.forEach_selected Select.link_stylesheet (set_nonce nonce)
        (Select.forEach_selected Select.style (set_nonce nonce) tree)
  end.

(** What the policy texts ask for: the script and style flags of one text,
    and of the two sources together. *)
Definition needs (csp : string) : bool * bool := Csp.shouldApplyNonce csp.

Definition needs_opt (o : option string) : bool * bool :=
  match o with
  | Some csp => needs csp
  | None => (false, false)
  end.

Definition stamp (s : call_site) (nonce : string) (flags : bool * bool)
    (tree : list node) : list node :=
  let tree := if flags.1 then stamp_scripts s nonce tree else tree in
  if flags.2 then stamp_styles s nonce tree else tree.

Definition either (a b : bool * bool) : bool * bool :=
  (a.1 || b.1, a.2 || b.2).

(** The header value as the step sees it: [None] when it is missing or
    empty. *)
Definition header_source (res : response) : option string :=
  Js.if_truthy (headers res !! CSP).

(** The nonce step of one call site. *)
Definition createAndApplyNonce (s : call_site)
  : string → response → list node → option path → option string
    → outcome (response * list node) :=
  match s with
  | HeadFragment => Render.createAndApplyNonce
  | DocumentTree => Csp.createAndApplyNonce
  end.

(** The nonce branch runs when either text contains [nonce]. *)
Definition nonce_branch (content header : option string) : bool :=
  Js.includes_opt "nonce" content || Js.includes_opt "nonce" header.

(** The tree after the nonce step, when a Meta source with content [c] is
    at [p]. *)
Definition tree_after_nonce (s : call_site) (nonce : string) (tree : list node)
    (p : path) (c : string) (header : option string) : list node :=
  if nonce_branch (Some c) header
  then stamp s nonce (either (needs c) (needs_opt header))
         (Hast.alter_at (set_content (rewrite_nonce nonce c)) p tree)
  else tree.

(** The content of the Meta source after the nonce step. *)
Definition content_after_nonce (nonce c : string) (header : option string)
  : string :=
  if nonce_branch (Some c) header then rewrite_nonce nonce c else c.

Definition header_after_nonce (nonce : string) (content : option string)
    (h : string) : string :=
  if nonce_branch content (Some h) then rewrite_nonce nonce h else h.

(** ** The specification's own words

    Definitions that follow the wording of the specification, to compare the
    source with. *)

Module Spec.

(** The parser as the specification words it: split on [;], skip the
    segments that are empty once trimmed, split the others on whitespace;
    the first token is the name, the others joined by spaces the value. *)

(** The text up to the first whitespace, and the tokens after it. *)
Fixpoint scan (s : string) : string * list string :=
  match s with
  | "" => ("", [])
  | String c s' =>
      let '(cur, rest) := scan s' in
      if Js.is_ws c
      then ("", if decide (cur = "") then rest else cur :: rest)
      else (String c cur, rest)
  end.

(** The maximal runs of code units that are not whitespace. *)
Definition tokens (s : string) : list string :=
  let '(cur, rest) := scan s in
  if decide (cur = "") then rest else cur :: rest.

Definition parse_segment (result : gmap string string) (segment : string)
  : gmap string string :=
  match tokens (Js.trim segment) with
  | [] => result
  | directive :: values => <[directive := Js.join " " values]> result
  end.

Definition parse (csp : string) : gmap string string :=
  foldl parse_segment ∅ (Js.split ";"%char csp).

(** Directive, a space, its value; the directives joined by [; ]. *)
Definition reconstruct (entries : list (string * string)) : string :=
  Js.join "; " (map (λ e, e.1 +:+ " " +:+ e.2) entries).

End Spec.

(** The Meta source as the specification words it: the first element in
    document order that is a [meta] whose http-equiv attribute, compared
    without regard to case, is content-security-policy. *)
Definition first_meta_ignoring_case (tree : list node) : option path :=
  Hast.find_first
    (λ t pr,
       String.eqb t "meta"
       && match Select.normalizeValue "http-equiv" (pr !! "httpEquiv") with
          | Some v => String.eqb (Js.toLowerCase v) "content-security-policy"
          | None => false
          end)
    tree.

(** The content of the Meta source a call site selects, when it is a
    string. *)
Definition meta_content (s : call_site) (tree : list node) : option string :=
  match meta_source s tree with
  | Some p =>
      match Hast.element_at p tree with
      | Some (_, pr) =>
          match pr !! "content" with
          | Some (PStr c) => Some c
          | _ => None
          end
      | None => None
      end
  | None => None
  end.

(** ** Vocabulary of the proofs *)

(** An element with its properties changed by [g], which sees the tag
    name. *)
Definition retag (g : string → gmap string PropValue → gmap string PropValue)
    (e : string * gmap string PropValue) : string * gmap string PropValue :=
  (e.1, g e.1 e.2).

(** What the stamping loops of the tree module do to the properties of an
    element with tag name [t], for the given script and style flags. *)
Definition stamped_properties (nonce : string) (flags : bool * bool)
    (t : string) (pr : gmap string PropValue) : gmap string PropValue :=
  let pr :=
    if flags.1 && Select.matches Select.script t pr
    then set_nonce nonce pr else pr in
  let pr :=
    if flags.2 && Select.matches Select.style t pr
    then set_nonce nonce pr else pr in
  if flags.2 && Select.matches Select.link_stylesheet t pr
  then set_nonce nonce pr else pr.

(** [has c s]: the code unit [c] occurs in [s]. *)
Fixpoint has (c : ascii) (s : string) : bool :=
  match s with
  | "" => false
  | String a s' => bool_decide (a = c) || has c s'
  end.

(** An entry that [parseCSP] can store: name and value of a segment
    without [;], the name not [__proto__]. *)
Definition stored (e : string * string) : Prop :=
  e.1 ≠ "__proto__"
  ∧ ∃ part, has ";" part = false
            ∧ directive_of part = e.1 ∧ value_of part = e.2.

Definition rebuilt (e : string * string) : string := e.1 +:+ " " +:+ e.2.

(** What the stamping loops of render.js do to the properties of a direct
    child with tag name [t]. *)
Definition render_stamped_properties (nonce : string) (flags : bool * bool)
    (t : string) (pr : gmap string PropValue) : gmap string PropValue :=
  let pr :=
    if flags.1 && String.eqb t "script" then set_nonce nonce pr else pr in
  if flags.2 && Render.is_style t pr then set_nonce nonce pr else pr.

(** The tree without its [nonce] properties. *)
Definition without_nonce (tree : list node) : list node :=
  map (Hast.map_node (λ _ pr, delete "nonce" pr)) tree.

(** The texts of a value of [meta.page]: the string, or the items of the
    array that are not [undefined]. *)
Definition page_values (value : option Render.page_value) : list string :=
  match value with
  | Some (Render.PageStr text) => [text]
  | Some (Render.PageList items) => omap id items
  | None => []
  end.

(** The [meta] elements one entry of [meta.page] stands for. *)
Definition metas_of (h : string → gmap string string → list node → node)
    (entry : string * option Render.page_value) : list node :=
  let name := entry.1 in
  let attr :=
    if Js.includes ":" name && negb (String.prefix "twitter:" name)
    then "property" else "name" in
  map (λ v, h "meta" (<["content" := v]> {[attr := name]}) [])
    (page_values entry.2).

(** [name.toLowerCase() === 'json-ld'] *)
Definition is_json_ld (name : string) : bool :=
  String.eqb (Js.toLowerCase name) "json-ld".

(** The value [createElement] stores under the name [k]: the value that
    follows the last occurrence of [k] among the names. *)
Fixpoint given (k : string) (attrs : list (option string)) : option string :=
  match attrs with
  | key :: Some value :: rest =>
      match given k rest with
      | Some v => Some v
      | None => if decide (Render.key_of key = k) then Some value else None
      end
  | _ => None
  end.

(** ** Sample inputs *)

Module Samples.

Definition meta_props (httpEquiv content : string) : gmap string PropValue :=
  {[ "httpEquiv" := PList [httpEquiv]; "content" := PStr content ]}.

(** [<meta http-equiv=... content=... keep-as-meta="true">] *)
Definition kept_props (httpEquiv content : string) : gmap string PropValue :=
  <["keep-as-meta" := PStr "true"]> (meta_props httpEquiv content).

Definition meta (pr : gmap string PropValue) : node := Element "meta" pr [].
Definition script : node := Element "script" ∅ [].
Definition style : node := Element "style" ∅ [].
Definition stylesheet : node :=
  Element "link" {[ "rel" := PList ["stylesheet"] ]} [].
Definition div (ch : list node) : node := Element "div" ∅ ch.

Definition no_header : response :=
  {| headers := {[ "content-type" := "text/html" ]}; body := Some "<html>" |}.

Definition with_header (csp : string) : response :=
  headers_set CSP csp no_header.

Definition script_policy : string := "default-src 'self'; script-src 'nonce'".
Definition style_policy : string := "style-src 'nonce'".
Definition plain_policy : string := "default-src 'self'".

End Samples.

(** * Properties *)

Example parseCSP_two_directives :
  parseCSP "default-src 'self'; script-src 'nonce' 'strict-dynamic'"
  = {[ "default-src" := "'self'"; "script-src" := "'nonce' 'strict-dynamic'" ]}.
Proof. vm_compute. reflexivity. Qed.

(** ** Trees: induction, references, updates *)

Lemma lookup_map {A B} (f : A → B) (l : list A) (i : nat) :
  map f l !! i = f <$> l !! i.
Proof. apply list_lookup_fmap. Qed.

Module HastFacts.
Import Hast.

Lemma node_at_map_node g q n :
  node_at q (map_node g n) = map_node g <$> node_at q n.
Proof.
  revert n. induction q as [|i q IH]; intros n; [done|].
  destruct n as [t pr ch| | |]; simpl; try done.
  rewrite lookup_map. destruct (ch !! i); simpl; auto.
Qed.

Lemma at_path_map_node g p tree :
  at_path p (map (map_node g) tree) = map_node g <$> at_path p tree.
Proof.
  destruct p as [|i q]; [done|]. simpl. rewrite lookup_map.
  destruct (tree !! i); simpl; auto using node_at_map_node.
Qed.

Lemma element_at_map_node g p tree :
  element_at p (map (map_node g) tree)
  = (λ e, (e.1, g e.1 e.2)) <$> element_at p tree.
Proof.
  unfold element_at. rewrite at_path_map_node.
  destruct (at_path p tree) as [[| | |]|]; done.
Qed.

Lemma at_path_map_top g p tree :
  at_path p (map (map_top g) tree)
  = match p with
    | [_] => map_top g <$> at_path p tree
    | _ => at_path p tree
    end.
Proof.
  destruct p as [|i [|j q]]; simpl; try done.
  - rewrite lookup_map. by destruct (tree !! i).
  - rewrite lookup_map. by destruct (tree !! i) as [[| | |]|].
Qed.

Lemma element_at_map_top g p tree :
  element_at p (map (map_top g) tree)
  = match p with
    | [_] => (λ e, (e.1, g e.1 e.2)) <$> element_at p tree
    | _ => element_at p tree
    end.
Proof.
  unfold element_at. rewrite at_path_map_top.
  destruct p as [|i [|j q]]; try done.
  destruct (at_path [i] tree) as [[| | |]|]; done.
Qed.

Lemma node_at_alter_node g q n :
  node_at q (alter_node g q n)
  = match node_at q n with
    | Some (Element t pr ch) => Some (Element t (g pr) ch)
    | o => o
    end.
Proof.
  revert n. induction q as [|i q IH]; intros n.
  - by destruct n.
  - destruct n as [t pr ch| | |]; simpl; try done.
    rewrite list_lookup_alter_eq. destruct (ch !! i); simpl; auto.
Qed.

Lemma at_path_alter_at g p tree :
  at_path p (alter_at g p tree)
  = match at_path p tree with
    | Some (Element t pr ch) => Some (Element t (g pr) ch)
    | o => o
    end.
Proof.
  destruct p as [|i q]; [done|]. simpl. rewrite list_lookup_alter_eq.
  destruct (tree !! i); simpl; auto using node_at_alter_node.
Qed.

Lemma element_at_alter_at g p tree :
  element_at p (alter_at g p tree)
  = (λ e, (e.1, g e.2)) <$> element_at p tree.
Proof.
  unfold element_at. rewrite at_path_alter_at.
  destruct (at_path p tree) as [[| | |]|]; done.
Qed.

(** What [first_in] returns points into the list. *)
Lemma first_in_Some find i l p :
  first_in find i l = Some p →
  ∃ j n q, p = (i + j) :: q ∧ l !! j = Some n ∧ find n = Some q
           ∧ ∀ k n', k < j → l !! k = Some n' → find n' = None.
Proof.
  revert i. induction l as [|x l IH]; intros i; [done|]. simpl.
  destruct (find x) as [q|] eqn:Hx.
  - intros [= <-]. exists 0, x, q. rewrite Nat.add_0_r.
    repeat split; auto. intros k n' Hk. lia.
  - intros (j & n & q & -> & Hj & Hn & Hfirst)%IH.
    exists (S j), n, q. replace (i + S j) with (S i + j) by lia.
    repeat split; auto. intros [|k] n' Hk; simpl.
    + by intros [= <-].
    + apply Hfirst. lia.
Qed.

Lemma first_in_None find i l :
  first_in find i l = None ↔ ∀ n, n ∈ l → find n = None.
Proof.
  revert i. induction l as [|x l IH]; intros i; simpl.
  - split; [|done]. intros _ n Hn. by apply elem_of_nil in Hn.
  - destruct (find x) eqn:Hx.
    + split; [done|]. intros H. specialize (H x (list_elem_of_here _ _)).
      congruence.
    + rewrite IH. split.
      * intros H n [->|Hn]%elem_of_cons; auto.
      * intros H n Hn. apply H. by right.
Qed.

End HastFacts.

(** ** Selecting and stamping *)

Module SelectFacts.
Import Hast Select.

Lemma matches_tag sel t pr : matches sel t pr = true → t = sel_tag sel.
Proof.
  unfold matches. intros [H _]%andb_true_iff. by apply String.eqb_eq.
Qed.

Lemma find_node_Some test n q :
  find_node test n = Some q →
  ∃ t pr ch, node_at q n = Some (Element t pr ch) ∧ test t pr = true.
Proof.
  revert q. induction n as [t pr ch IH| | |] using node_ind; try done.
  intros q. simpl. destruct (test t pr) eqn:Hm.
  - intros [= <-]. by exists t, pr, ch.
  - intros (j & n & q' & -> & Hj & Hn & _)%HastFacts.first_in_Some.
    simpl. rewrite Hj. simpl.
    eapply Forall_lookup_1 in IH; [|exact Hj]. by apply IH.
Qed.

Lemma find_first_Some test tree p :
  find_first test tree = Some p →
  ∃ t pr, element_at p tree = Some (t, pr) ∧ test t pr = true.
Proof.
  intros (j & n & q & -> & Hj & Hn & _)%HastFacts.first_in_Some.
  apply find_node_Some in Hn as (t & pr & ch & Hq & Hm).
  exists t, pr. unfold element_at. simpl. rewrite Hj. simpl. by rewrite Hq.
Qed.

Lemma select_Some sel tree p :
  select sel tree = Some p →
  ∃ pr, element_at p tree = Some (sel_tag sel, pr)
        ∧ matches sel (sel_tag sel) pr = true.
Proof.
  intros (t & pr & Hel & Hm)%find_first_Some.
  exists pr. by rewrite <- (matches_tag _ _ _ Hm).
Qed.

End SelectFacts.

Lemma meta_source_element s tree p :
  meta_source s tree = Some p →
  ∃ pr, Hast.element_at p tree = Some ("meta", pr).
Proof.
  destruct s; simpl.
  - unfold Render.find_meta.
    intros (j & n & q & -> & Hj & Hn & _)%HastFacts.first_in_Some.
    destruct (Render.is_meta_csp n) eqn:Hm; [|done].
    injection Hn as <-. destruct n as [t pr ch| | |]; try done.
    simpl in Hm. apply andb_true_iff in Hm as [->%String.eqb_eq _].
    exists pr. unfold Hast.element_at. simpl. by rewrite Hj.
  - unfold Csp.getMetaCSP.
    destruct (Select.select _ tree) as [m|] eqn:H1.
    + intros [= <-]. apply SelectFacts.select_Some in H1 as (pr & H & _). eauto.
    + intros (pr & H & _)%SelectFacts.select_Some. eauto.
Qed.

(** render.js finds no Meta source exactly when no direct child of the
    fragment passes its test. *)
Lemma render_finds_no_meta head :
  Render.find_meta head = None
  ↔ ∀ el, el ∈ head → Render.is_meta_csp el = false.
Proof.
  unfold Render.find_meta. rewrite HastFacts.first_in_None.
  split; intros H el Hel; specialize (H el Hel);
    by destruct (Render.is_meta_csp el).
Qed.

(** Stamping touches scripts, styles and links: a [meta] element keeps its
    properties and its place. *)
Lemma stamp_scripts_meta s nonce tree p pr :
  Hast.element_at p tree = Some ("meta", pr) →
  Hast.element_at p (stamp_scripts s nonce tree) = Some ("meta", pr).
Proof.
  intros H. destruct s; simpl.
  - rewrite HastFacts.element_at_map_top, H. by destruct p as [|? [|]].
  - unfold Select.forEach_selected.
    by rewrite HastFacts.element_at_map_node, H.
Qed.

Lemma stamp_styles_meta s nonce tree p pr :
  Hast.element_at p tree = Some ("meta", pr) →
  Hast.element_at p (stamp_styles s nonce tree) = Some ("meta", pr).
Proof.
  intros H. destruct s; simpl.
  - rewrite HastFacts.element_at_map_top, H. by destruct p as [|? [|]].
  - unfold Select.forEach_selected.
    by rewrite !HastFacts.element_at_map_node, H.
Qed.

Lemma stamp_meta s nonce flags tree p pr :
  Hast.element_at p tree = Some ("meta", pr) →
  Hast.element_at p (stamp s nonce flags tree) = Some ("meta", pr).
Proof.
  intros H. unfold stamp. destruct flags as [[] []]; simpl;
    auto using stamp_scripts_meta, stamp_styles_meta.
Qed.

(** ** The step in closed form *)

Lemma properties_at_element p tree t pr :
  Hast.element_at p tree = Some (t, pr) → properties_at p tree = Returns pr.
Proof. unfold properties_at. by intros ->. Qed.

Lemma content_of_string pr c :
  pr !! "content" = Some (PStr c) → content_of pr = Returns c.
Proof. unfold content_of. by intros ->. Qed.

Lemma createAndApplyNonce_meta s nonce res tree p pr c headersCSP :
  Hast.element_at p tree = Some ("meta", pr) →
  pr !! "content" = Some (PStr c) →
  createAndApplyNonce s nonce res tree (Some p) headersCSP
  = Returns
      (match Js.if_truthy headersCSP with
       | Some h => headers_set CSP (rewrite_nonce nonce h) res
       | None => res
       end,
       stamp s nonce (either (needs c) (needs_opt (Js.if_truthy headersCSP)))
         (Hast.alter_at (set_content (rewrite_nonce nonce c)) p tree)).
Proof.
  intros Hel Hc.
  destruct s; simpl;
    unfold Render.createAndApplyNonce, Csp.createAndApplyNonce;
    rewrite (properties_at_element _ _ _ _ Hel); simpl;
    rewrite (content_of_string _ _ Hc); simpl;
    unfold stamp, either, needs_opt, needs, Csp.shouldApplyNonce; simpl;
    destruct (Js.if_truthy headersCSP); simpl;
    repeat match goal with
           | |- context [Js.includes_opt ?n ?o] =>
               destruct (Js.includes_opt n o); simpl
           end; reflexivity.
Qed.

Lemma createAndApplyNonce_header s nonce res tree headersCSP :
  createAndApplyNonce s nonce res tree None headersCSP
  = Returns
      (match Js.if_truthy headersCSP with
       | Some h => headers_set CSP (rewrite_nonce nonce h) res
       | None => res
       end,
       stamp s nonce (needs_opt (Js.if_truthy headersCSP)) tree).
Proof.
  destruct s; simpl;
    unfold Render.createAndApplyNonce, Csp.createAndApplyNonce; simpl;
    unfold stamp, needs_opt, needs, Csp.shouldApplyNonce; simpl;
    destruct (Js.if_truthy headersCSP); simpl;
    repeat match goal with
           | |- context [Js.includes_opt ?n ?o] =>
               destruct (Js.includes_opt n o); simpl
           end; reflexivity.
Qed.

Lemma element_at_after_nonce s nonce tree p pr c header :
  Hast.element_at p tree = Some ("meta", pr) →
  Hast.element_at p (tree_after_nonce s nonce tree p c header)
  = Some ("meta",
          if nonce_branch (Some c) header
          then set_content (rewrite_nonce nonce c) pr else pr).
Proof.
  intros Hel. unfold tree_after_nonce.
  destruct (nonce_branch (Some c) header); [|done].
  apply stamp_meta. by rewrite HastFacts.element_at_alter_at, Hel.
Qed.

Lemma headers_set_same res h :
  headers res !! CSP = Some h → headers_set CSP h res = res.
Proof.
  intros H. destruct res as [hs b]. unfold headers_set. simpl in *.
  by rewrite insert_id.
Qed.

Lemma if_truthy_Some o h : Js.if_truthy o = Some h → o = Some h.
Proof.
  destruct o as [x|]; [|done]. simpl. by destruct (String.eqb x ""); intros [=->].
Qed.

(** With a Meta source whose content is a string, the step returns, and
    this is what it returns. *)
Lemma contentSecurityPolicy_meta s nonce res tree p pr c :
  meta_source s tree = Some p →
  Hast.element_at p tree = Some ("meta", pr) →
  pr !! "content" = Some (PStr c) →
  let tree1 := tree_after_nonce s nonce tree p c (header_source res) in
  contentSecurityPolicy s nonce res tree
  = Returns
      match header_source res with
      | Some h =>
          (headers_set CSP (header_after_nonce nonce (Some c) h) res, tree1)
      | None =>
          if Hast.truthy (pr !! "keep-as-meta")
          then (res, Hast.alter_at (delete "keep-as-meta") p tree1)
          else (headers_set CSP (content_after_nonce nonce c None) res,
                Unist.remove p tree1)
      end.
Proof.
  intros Hfind Hel Hc tree1.
  pose proof (element_at_after_nonce s nonce tree p pr c (header_source res) Hel)
    as Hel1. fold tree1 in Hel1.
  assert (contentSecurityPolicy s nonce res tree
    = (do (res', tree') <-
         (if nonce_branch (Some c) (header_source res)
          then createAndApplyNonce s nonce res tree (Some p) (headers res !! CSP)
          else Returns (res, tree));;
       match header_source res with
       | None =>
           do pr <- properties_at p tree';;
           if negb (Hast.truthy (pr !! "keep-as-meta"))
           then do content <- content_of pr;;
                Returns (headers_set CSP content res', Unist.remove p tree')
           else Returns (res', Hast.alter_at (delete "keep-as-meta") p tree')
       | Some _ => Returns (res', tree')
       end)) as ->.
  { destruct s; simpl in *;
      unfold Render.contentSecurityPolicy, Csp.contentSecurityPolicy,
        Csp.getHeaderCSP, header_source;
      rewrite Hfind, (properties_at_element _ _ _ _ Hel); simpl;
      rewrite (content_of_string _ _ Hc); simpl;
      by destruct (Js.if_truthy (headers res !! CSP)). }
  unfold tree1, tree_after_nonce, header_after_nonce, content_after_nonce in *.
  destruct (nonce_branch (Some c) (header_source res)) eqn:Hon.
  - rewrite (createAndApplyNonce_meta _ _ _ _ _ _ _ _ Hel Hc). simpl.
    fold (header_source res) in *.
    destruct (header_source res) as [h|] eqn:Hh; simpl.
    + assert (nonce_branch (Some c) (Some h) = true) as -> by done. done.
    + erewrite properties_at_element by exact Hel1. simpl.
      unfold set_content at 1. rewrite lookup_insert_ne by done.
      destruct (Hast.truthy (pr !! "keep-as-meta")); simpl; [done|].
      unfold content_of, set_content. rewrite lookup_insert_eq. simpl.
      unfold nonce_branch in *. simpl in *. by rewrite Hon.
  - simpl. destruct (header_source res) as [h|] eqn:Hh; simpl.
    + assert (nonce_branch (Some c) (Some h) = false) as -> by done.
      rewrite headers_set_same; [done|]. by apply if_truthy_Some.
    + rewrite (properties_at_element _ _ _ _ Hel). simpl.
      destruct (Hast.truthy (pr !! "keep-as-meta")); simpl; [done|].
      rewrite (content_of_string _ _ Hc). simpl.
      unfold nonce_branch in *. simpl in *. by rewrite Hon.
Qed.

Lemma contentSecurityPolicy_no_meta s nonce res tree :
  meta_source s tree = None →
  contentSecurityPolicy s nonce res tree
  = Returns
      match header_source res with
      | Some h =>
          if Js.includes "nonce" h
          then (headers_set CSP (rewrite_nonce nonce h) res,
                stamp s nonce (needs h) tree)
          else (res, tree)
      | None => (res, tree)
      end.
Proof.
  intros Hfind.
  destruct s; simpl in *;
    unfold Render.contentSecurityPolicy, Csp.contentSecurityPolicy,
      Csp.getHeaderCSP, header_source;
    rewrite Hfind;
    (destruct (Js.if_truthy (headers res !! CSP)) as [h|] eqn:Hh; [|done]);
    simpl; (destruct (Js.includes "nonce" h); [|done]); simpl.
  - change Render.createAndApplyNonce with (createAndApplyNonce HeadFragment).
    by rewrite createAndApplyNonce_header, Hh.
  - change Csp.createAndApplyNonce with (createAndApplyNonce DocumentTree).
    by rewrite createAndApplyNonce_header, Hh.
Qed.

(** A Meta source whose [content] is not a string makes the step throw. *)
Lemma contentSecurityPolicy_throws s nonce res tree p pr :
  meta_source s tree = Some p →
  Hast.element_at p tree = Some ("meta", pr) →
  content_of pr = Throws →
  contentSecurityPolicy s nonce res tree = Throws.
Proof.
  intros Hfind Hel Hc.
  destruct s; simpl in *;
    unfold Render.contentSecurityPolicy, Csp.contentSecurityPolicy,
      Csp.getHeaderCSP;
    rewrite Hfind, (properties_at_element _ _ _ _ Hel); simpl;
    rewrite Hc; simpl;
    by destruct (Js.if_truthy (headers res !! CSP)).
Qed.

(** ** Removal *)

Module UnistFacts.
Import Hast.

Lemma elements_app l1 l2 : elements (l1 ++ l2) = elements l1 ++ elements l2.
Proof. apply flat_map_app. Qed.

Lemma elements_split tree i n :
  tree !! i = Some n →
  elements tree
  = elements (take i tree) ++ elements_of n ++ elements (drop (S i) tree).
Proof.
  intros H. rewrite <- (take_drop_middle tree i n H) at 1.
  rewrite elements_app. unfold elements at 2. simpl. done.
Qed.

Lemma elements_delete tree i :
  elements (delete i tree)
  = elements (take i tree) ++ elements (drop (S i) tree).
Proof. by rewrite delete_take_drop, elements_app. Qed.

Lemma elements_insert tree i n :
  i < length tree →
  elements (<[i := n]> tree)
  = elements (take i tree) ++ elements_of n ++ elements (drop (S i) tree).
Proof.
  intros H. rewrite insert_take_drop by done. rewrite elements_app.
  unfold elements at 2. simpl. done.
Qed.

Lemma at_path_cons i j q tree t pr ch :
  tree !! i = Some (Element t pr ch) →
  at_path (i :: j :: q) tree = at_path (j :: q) ch.
Proof. intros H. simpl. by rewrite H. Qed.

(** The elements that go are one block of the document order, and the
    element the reference points to is among them. *)
Lemma remove_elements p tree e :
  element_at p tree = Some e →
  ∃ before gone after,
    elements tree = before ++ gone ++ after
    ∧ elements (Unist.remove p tree) = before ++ after
    ∧ e ∈ gone.
Proof.
  revert tree. induction p as [|i q IH]; intros tree; [done|].
  destruct q as [|j q].
  - unfold element_at. simpl.
    destruct (tree !! i) as [n|] eqn:Hi; [|done]. simpl.
    destruct n as [t pr ch| | |]; try done. intros [= <-].
    exists (elements (take i tree)), (elements_of (Element t pr ch)),
      (elements (drop (S i) tree)).
    split; [by apply elements_split|]. split; [apply elements_delete|].
    simpl. apply list_elem_of_here.
  - unfold element_at.
    destruct (tree !! i) as [n|] eqn:Hi; [|by simpl; rewrite Hi].
    destruct n as [t pr ch| | |]; try (by simpl; rewrite Hi).
    rewrite (at_path_cons _ _ _ _ _ _ _ Hi). intros He.
    destruct (IH ch He) as (b & g & a & Hch & Hrm & Hin).
    assert (i < length tree) as Hlen by (by eapply lookup_lt_Some).
    change (Unist.remove (i :: j :: q) tree) with
      (match tree !! i with
       | Some (Element t pr ch) =>
           match ch, Unist.remove (j :: q) ch with
           | _ :: _, [] => delete i tree
           | _, ch' => <[i := Element t pr ch']> tree
           end
       | _ => tree
       end).
    rewrite Hi.
    assert (elements_of (Element t pr ch) = (t, pr) :: b ++ g ++ a) as Hn
      by (simpl; by rewrite <- Hch).
    destruct (Unist.remove (j :: q) ch) as [|x ch'] eqn:Hr.
    + destruct ch as [|y ch].
      { by destruct j. }
      rewrite ?Hr.
      exists (elements (take i tree)), ((t, pr) :: b ++ g ++ a),
        (elements (drop (S i) tree)).
      split; [by rewrite <- Hn; apply elements_split|].
      split; [apply elements_delete|].
      apply elem_of_cons. right. apply elem_of_app. right.
      apply elem_of_app. by left.
    + exists (elements (take i tree) ++ (t, pr) :: b), g,
        (a ++ elements (drop (S i) tree)).
      split.
      { rewrite (elements_split _ _ _ Hi), Hn. by simplify_list_eq. }
      split; [|done].
      unfold elements in Hrm. simpl in Hrm.
      destruct ch as [|y ch]; rewrite ?Hr;
        rewrite elements_insert by done; simpl;
        rewrite Hrm; by simplify_list_eq.
Qed.

End UnistFacts.

(** ** Document order *)

Module OrderFacts.
Import Hast.

Lemma Forall_elements (P : string * gmap string PropValue → Prop) tree :
  Forall (λ n, Forall P (elements_of n)) tree → Forall P (elements tree).
Proof.
  unfold elements. induction 1 as [|n l Hn _ IH]; simpl; [done|].
  by apply Forall_app.
Qed.

Lemma find_node_None test n :
  find_node test n = None →
  Forall (λ e, test e.1 e.2 = false) (elements_of n).
Proof.
  induction n as [t pr ch IH| | |] using node_ind; try by constructor.
  simpl. destruct (test t pr) eqn:Ht; [done|].
  intros Hch. constructor; [done|].
  change (Forall (λ e, test e.1 e.2 = false) (elements ch)).
  apply Forall_elements, Forall_forall. intros n Hn.
  rewrite Forall_forall in IH. apply IH; [done|].
  by eapply HastFacts.first_in_None.
Qed.

(** What [find_node] returns is the first element in document order that
    passes the test. *)
Lemma find_node_first test n q :
  find_node test n = Some q →
  ∃ before e after ch,
    elements_of n = before ++ e :: after
    ∧ Forall (λ x, test x.1 x.2 = false) before
    ∧ test e.1 e.2 = true
    ∧ node_at q n = Some (Element e.1 e.2 ch).
Proof.
  revert q. induction n as [t pr ch IH| | |] using node_ind; try done.
  intros q. simpl. destruct (test t pr) eqn:Ht.
  - intros [= <-]. by exists [], (t, pr), (flat_map elements_of ch), ch.
  - intros (j & n & q' & -> & Hj & Hn & Hfirst)%HastFacts.first_in_Some.
    eapply Forall_lookup_1 in IH; [|exact Hj].
    destruct (IH _ Hn) as (b & e & a & ch' & Hel & Hb & He & Hq).
    exists ((t, pr) :: elements (take j ch) ++ b), e,
      (a ++ elements (drop (S j) ch)), ch'.
    split.
    { change (flat_map elements_of ch) with (elements ch).
      rewrite (UnistFacts.elements_split _ _ _ Hj), Hel. by simplify_list_eq. }
    split; [|split; [done|by simpl; rewrite Hj]].
    constructor; [done|]. apply Forall_app. split; [|done].
    apply Forall_elements, Forall_forall. intros n' Hn'.
    apply list_elem_of_lookup in Hn' as [k Hk].
    apply find_node_None. apply lookup_take_Some in Hk as [Hk Hlt]. eauto.
Qed.

Lemma find_first_first test tree p :
  find_first test tree = Some p →
  ∃ before e after,
    elements tree = before ++ e :: after
    ∧ Forall (λ x, test x.1 x.2 = false) before
    ∧ test e.1 e.2 = true
    ∧ element_at p tree = Some e.
Proof.
  intros (j & n & q & -> & Hj & Hn & Hfirst)%HastFacts.first_in_Some.
  destruct (find_node_first _ _ _ Hn) as (b & e & a & ch & Hel & Hb & He & Hq).
  exists (elements (take j tree) ++ b), e, (a ++ elements (drop (S j) tree)).
  split.
  { rewrite (UnistFacts.elements_split _ _ _ Hj), Hel. by simplify_list_eq. }
  split; [|split; [done|]].
  - apply Forall_app. split; [|done].
    apply Forall_elements, Forall_forall. intros n' Hn'.
    apply list_elem_of_lookup in Hn' as [k Hk].
    apply find_node_None. apply lookup_take_Some in Hk as [Hk Hlt]. eauto.
  - unfold element_at. simpl. rewrite Hj. simpl. rewrite Hq. by destruct e.
Qed.

End OrderFacts.

(** ** Promotion, keep-as-meta, header precedence, frame *)

(** Promotion of the Meta source a call site selects: when its keep-as-meta
    property is missing or falsy and there is no header CSP value, the step
    returns; the response's content-security-policy header then is the Meta
    element's content, rewritten when it contained [nonce], and the Meta
    element is gone from the tree: the elements of the result are those of
    the tree after the nonce step without one block that contains it. Which
    element a call site selects is the matter of C7, and C3 fails where the
    selection misses the Meta source (see below, where the call sites
    part). *)
Theorem promotion_moves_meta_to_header s nonce res tree p pr c :
  meta_source s tree = Some p →
  Hast.element_at p tree = Some ("meta", pr) →
  pr !! "content" = Some (PStr c) →
  Hast.truthy (pr !! "keep-as-meta") = false →
  header_source res = None →
  let content' := if Js.includes "nonce" c then rewrite_nonce nonce c else c in
  let tree1 := tree_after_nonce s nonce tree p c None in
  ∃ res' tree',
    contentSecurityPolicy s nonce res tree = Returns (res', tree')
    ∧ headers res' !! CSP = Some content'
    ∧ tree' = Unist.remove p tree1
    ∧ ∃ pr1 before gone after,
        Hast.element_at p tree1 = Some ("meta", pr1)
        ∧ pr1 !! "content" = Some (PStr content')
        ∧ Hast.elements tree1 = before ++ gone ++ after
        ∧ Hast.elements tree' = before ++ after
        ∧ ("meta", pr1) ∈ gone.
Proof.
  intros Hfind Hel Hc Hkeep Hh content' tree1.
  pose proof (contentSecurityPolicy_meta s nonce res tree p pr c Hfind Hel Hc)
    as Hrun.
  rewrite Hh, Hkeep in Hrun. simpl in Hrun.
  pose proof (element_at_after_nonce s nonce tree p pr c None Hel) as Hel1.
  fold tree1 in Hel1.
  destruct (UnistFacts.remove_elements _ _ _ Hel1) as (b & g & a & H1 & H2 & H3).
  eexists _, _. split; [exact Hrun|].
  assert (content_after_nonce nonce c None = content') as Hcontent.
  { unfold content_after_nonce, nonce_branch, content'. simpl.
    by rewrite orb_false_r. }
  split; [simpl; by rewrite lookup_insert_eq, Hcontent|].
  split; [done|].
  eexists _, b, g, a. split; [exact Hel1|]. split; [|done].
  unfold nonce_branch, content'. simpl. rewrite orb_false_r.
  destruct (Js.includes "nonce" c); [|done].
  unfold set_content. by rewrite lookup_insert_eq.
Qed.

Lemma promotion_moves_meta_to_header_witness :
  (∃ res' tree',
     contentSecurityPolicy DocumentTree "V" Samples.no_header
       [Samples.div [Samples.meta
                       (Samples.meta_props "Content-Security-Policy"
                          Samples.script_policy)];
        Samples.script]
     = Returns (res', tree')
     ∧ headers res' !! CSP = Some "default-src 'self'; script-src 'nonce-V'"
     ∧ Hast.elements tree' = [("script", {[ "nonce" := PStr "V" ]})])
  ∧ (∃ res' head',
       contentSecurityPolicy HeadFragment "V" Samples.no_header
         [Samples.script;
          Samples.meta
            (Samples.meta_props "Content-Security-POLICY" Samples.style_policy);
          Samples.style]
       = Returns (res', head')
       ∧ headers res' !! CSP = Some "style-src 'nonce-V'"
       ∧ Hast.elements head'
         = [("script", ∅); ("style", {[ "nonce" := PStr "V" ]})]).
Proof.
  split.
  - destruct (promotion_moves_meta_to_header DocumentTree "V" Samples.no_header
                [Samples.div [Samples.meta
                                (Samples.meta_props "Content-Security-Policy"
                                   Samples.script_policy)];
                 Samples.script]
                [0; 0]
                (Samples.meta_props "Content-Security-Policy"
                   Samples.script_policy)
                Samples.script_policy)
      as (res' & tree' & Hrun & Hheader & Htree & _);
      [vm_compute; reflexivity ..|].
    exists res', tree'. split; [exact Hrun|]. split; [exact Hheader|].
    rewrite Htree. vm_compute. reflexivity.
  - destruct (promotion_moves_meta_to_header HeadFragment "V" Samples.no_header
                [Samples.script;
                 Samples.meta
                   (Samples.meta_props "Content-Security-POLICY"
                      Samples.style_policy);
                 Samples.style]
                [1]
                (Samples.meta_props "Content-Security-POLICY"
                   Samples.style_policy)
                Samples.style_policy)
      as (res' & head' & Hrun & Hheader & Htree & _);
      [vm_compute; reflexivity ..|].
    exists res', head'. split; [exact Hrun|]. split; [exact Hheader|].
    rewrite Htree. vm_compute. reflexivity.
Defined.

(** C5, as stated, fails: [<meta http-equiv=... content=... keep-as-meta>]
    has the property, with the empty string a bare attribute parses to, and
    there is no header; both call sites test the value for truthiness,
    promote the content to the header and remove the element, where the
    claim keeps the element and leaves the header unset. *)
Lemma bare_keep_as_meta_is_promoted :
  let pr := <["keep-as-meta" := PStr ""]>
              (Samples.meta_props "content-security-policy"
                 Samples.plain_policy) in
  let tree := [Samples.meta pr; Samples.script] in
  pr !! "keep-as-meta" = Some (PStr "")
  ∧ first_meta_ignoring_case tree = Some [0]
  ∧ meta_source HeadFragment tree = Some [0]
  ∧ meta_source DocumentTree tree = Some [0]
  ∧ header_source Samples.no_header = None
  ∧ contentSecurityPolicy HeadFragment "V" Samples.no_header tree
    = Returns (headers_set CSP Samples.plain_policy Samples.no_header,
               [Samples.script])
  ∧ contentSecurityPolicy DocumentTree "V" Samples.no_header tree
    = Returns (headers_set CSP Samples.plain_policy Samples.no_header,
               [Samples.script]).
Proof. vm_compute. auto 10. Qed.

(** C5, amended. Keep-as-meta preservation for the Meta source a call site
    selects: when its keep-as-meta property has a truthy value, which is
    what the source tests ([keep-as-meta="true"]; the empty string of a bare
    attribute does not count), and there is no header CSP value, the step
    returns the response as it was, so the header stays unset; the Meta
    element is still where it was, its content is the original text,
    rewritten when it contained [nonce], and the keep-as-meta property is
    gone; its other properties are untouched. *)
Theorem keep_as_meta_keeps_meta s nonce res tree p pr c :
  meta_source s tree = Some p →
  Hast.element_at p tree = Some ("meta", pr) →
  pr !! "content" = Some (PStr c) →
  Hast.truthy (pr !! "keep-as-meta") = true →
  header_source res = None →
  let content' := if Js.includes "nonce" c then rewrite_nonce nonce c else c in
  ∃ res' tree' pr',
    contentSecurityPolicy s nonce res tree = Returns (res', tree')
    ∧ res' = res
    ∧ header_source res' = None
    ∧ Hast.element_at p tree' = Some ("meta", pr')
    ∧ pr' !! "content" = Some (PStr content')
    ∧ pr' !! "keep-as-meta" = None
    ∧ ∀ k, k ≠ "content" → k ≠ "keep-as-meta" → pr' !! k = pr !! k.
Proof.
  intros Hfind Hel Hc Hkeep Hh content'.
  pose proof (contentSecurityPolicy_meta s nonce res tree p pr c Hfind Hel Hc)
    as Hrun.
  rewrite Hh, Hkeep in Hrun. simpl in Hrun.
  pose proof (element_at_after_nonce s nonce tree p pr c None Hel) as Hel1.
  eexists _, _, _. split; [exact Hrun|]. split; [done|]. split; [done|].
  split; [by rewrite HastFacts.element_at_alter_at, Hel1|]. simpl.
  unfold nonce_branch, content'. simpl. rewrite orb_false_r.
  destruct (Js.includes "nonce" c); unfold set_content.
  - split; [by rewrite lookup_delete_ne, lookup_insert_eq|].
    split; [by rewrite lookup_delete_eq|].
    intros k ??. by rewrite lookup_delete_ne, lookup_insert_ne.
  - split; [by rewrite lookup_delete_ne|].
    split; [by rewrite lookup_delete_eq|].
    intros k ??. by rewrite lookup_delete_ne.
Qed.

Lemma keep_as_meta_keeps_meta_witness :
  (∃ tree' pr',
     contentSecurityPolicy HeadFragment "V" Samples.no_header
       [Samples.meta (Samples.kept_props "content-security-policy"
                        Samples.style_policy);
        Samples.style]
     = Returns (Samples.no_header, tree')
     ∧ Hast.element_at [0] tree' = Some ("meta", pr')
     ∧ pr' !! "content" = Some (PStr "style-src 'nonce-V'")
     ∧ pr' !! "keep-as-meta" = None)
  ∧ (∃ tree' pr',
       contentSecurityPolicy DocumentTree "V" Samples.no_header
         [Samples.div
            [Samples.meta (Samples.kept_props "Content-Security-Policy"
                             Samples.plain_policy)];
          Samples.script]
       = Returns (Samples.no_header, tree')
       ∧ Hast.element_at [0; 0] tree' = Some ("meta", pr')
       ∧ pr' !! "content" = Some (PStr "default-src 'self'")
       ∧ pr' !! "keep-as-meta" = None).
Proof.
  split.
  - destruct (keep_as_meta_keeps_meta HeadFragment "V" Samples.no_header
                [Samples.meta (Samples.kept_props "content-security-policy"
                                 Samples.style_policy);
                 Samples.style]
                [0]
                (Samples.kept_props "content-security-policy"
                   Samples.style_policy)
                Samples.style_policy)
      as (res' & tree' & pr' & Hrun & -> & _ & Hel & Hcontent & Hkeep & _);
      [vm_compute; reflexivity ..|].
    exists tree', pr'. auto.
  - destruct (keep_as_meta_keeps_meta DocumentTree "V" Samples.no_header
                [Samples.div
                   [Samples.meta (Samples.kept_props "Content-Security-Policy"
                                    Samples.plain_policy)];
                 Samples.script]
                [0; 0]
                (Samples.kept_props "Content-Security-Policy"
                   Samples.plain_policy)
                Samples.plain_policy)
      as (res' & tree' & pr' & Hrun & -> & _ & Hel & Hcontent & Hkeep & _);
      [vm_compute; reflexivity ..|].
    exists tree', pr'. auto.
Defined.

(** C6. Header precedence: with a Meta source and a header CSP value, the
    step returns; the Meta element is still where it was, and its properties
    are the ones it had, except that its content is rewritten when the nonce
    branch ran; the header is the former header value, rewritten when the
    nonce branch ran, so the Meta content is not promoted; and the tree is
    the tree after the nonce step, from which nothing is removed. *)
Theorem header_takes_precedence s nonce res tree p pr c h :
  meta_source s tree = Some p →
  Hast.element_at p tree = Some ("meta", pr) →
  pr !! "content" = Some (PStr c) →
  header_source res = Some h →
  let ran := Js.includes "nonce" c || Js.includes "nonce" h in
  ∃ res' tree',
    contentSecurityPolicy s nonce res tree = Returns (res', tree')
    ∧ headers res' !! CSP = Some (if ran then rewrite_nonce nonce h else h)
    ∧ Hast.element_at p tree'
      = Some ("meta", if ran then set_content (rewrite_nonce nonce c) pr else pr)
    ∧ tree' = (if ran
               then stamp s nonce (either (needs c) (needs h))
                      (Hast.alter_at (set_content (rewrite_nonce nonce c)) p tree)
               else tree).
Proof.
  intros Hfind Hel Hc Hh ran.
  pose proof (contentSecurityPolicy_meta s nonce res tree p pr c Hfind Hel Hc)
    as Hrun.
  pose proof (element_at_after_nonce s nonce tree p pr c (Some h) Hel) as Hel1.
  rewrite Hh in Hrun. simpl in Hrun.
  eexists _, _. split; [exact Hrun|].
  split; [simpl; by rewrite lookup_insert_eq|]. split; [exact Hel1|done].
Qed.

Lemma header_takes_precedence_witness :
  ∃ res' tree',
    contentSecurityPolicy DocumentTree "V"
      (Samples.with_header Samples.script_policy)
      [Samples.meta (Samples.meta_props "content-security-policy"
                       Samples.style_policy);
       Samples.script; Samples.style]
    = Returns (res', tree')
    ∧ headers res' !! CSP = Some "default-src 'self'; script-src 'nonce-V'"
    ∧ Hast.element_at [0] tree'
      = Some ("meta", Samples.meta_props "content-security-policy"
                        "style-src 'nonce-V'").
Proof.
  destruct (header_takes_precedence DocumentTree "V"
              (Samples.with_header Samples.script_policy)
              [Samples.meta (Samples.meta_props "content-security-policy"
                               Samples.style_policy);
               Samples.script; Samples.style]
              [0]
              (Samples.meta_props "content-security-policy" Samples.style_policy)
              Samples.style_policy Samples.script_policy)
    as (res' & tree' & Hrun & Hheader & Hel & _);
    [vm_compute; reflexivity ..|].
  exists res', tree'. split; [exact Hrun|]. split; [exact Hheader|].
  rewrite Hel. vm_compute. reflexivity.
Defined.

(** C4, as stated, fails: a Meta element with [keep-as-meta="true"] next to
    a header CSP value comes out of either call site with the property still
    on it. *)
Lemma keep_as_meta_stays_next_to_header :
  let res := Samples.with_header Samples.plain_policy in
  let tree := [Samples.meta (Samples.kept_props "content-security-policy"
                               Samples.script_policy)] in
  let tree' := [Samples.meta (Samples.kept_props "content-security-policy"
                                "default-src 'self'; script-src 'nonce-V'")] in
  contentSecurityPolicy HeadFragment "V" res tree = Returns (res, tree')
  ∧ contentSecurityPolicy DocumentTree "V" res tree = Returns (res, tree')
  ∧ Hast.element_at [0] tree'
    = Some ("meta", Samples.kept_props "content-security-policy"
                      "default-src 'self'; script-src 'nonce-V'")
  ∧ Samples.kept_props "content-security-policy"
      "default-src 'self'; script-src 'nonce-V'" !! "keep-as-meta"
    = Some (PStr "true").
Proof. vm_compute. auto. Qed.

(** C4, amended. The keep-as-meta property is read only when there is no
    header CSP value. Then a set (truthy) property is deleted from the Meta
    element, which stays in place, and otherwise the Meta element itself
    leaves the tree. With a header CSP value the property is not read: the
    Meta element stays in place with the property as it was. *)
Theorem keep_as_meta_deleted_when_read s nonce res tree p pr c :
  meta_source s tree = Some p →
  Hast.element_at p tree = Some ("meta", pr) →
  pr !! "content" = Some (PStr c) →
  ∃ res' tree',
    contentSecurityPolicy s nonce res tree = Returns (res', tree')
    ∧ match header_source res with
      | None =>
          if Hast.truthy (pr !! "keep-as-meta")
          then ∃ pr', Hast.element_at p tree' = Some ("meta", pr')
                      ∧ pr' !! "keep-as-meta" = None
          else tree' = Unist.remove p (tree_after_nonce s nonce tree p c None)
      | Some _ =>
          ∃ pr', Hast.element_at p tree' = Some ("meta", pr')
                 ∧ pr' !! "keep-as-meta" = pr !! "keep-as-meta"
      end.
Proof.
  intros Hfind Hel Hc.
  pose proof (contentSecurityPolicy_meta s nonce res tree p pr c Hfind Hel Hc)
    as Hrun.
  pose proof (element_at_after_nonce s nonce tree p pr c (header_source res) Hel)
    as Hel1.
  destruct (header_source res) as [h|]; simpl in Hrun.
  - eexists _, _. split; [exact Hrun|]. eexists. split; [exact Hel1|].
    destruct (nonce_branch _ _); [|done].
    unfold set_content. by rewrite lookup_insert_ne.
  - destruct (Hast.truthy (pr !! "keep-as-meta")); eexists _, _;
      (split; [exact Hrun|]); [|done].
    eexists. split; [by rewrite HastFacts.element_at_alter_at, Hel1|].
    simpl. by rewrite lookup_delete_eq.
Qed.

Lemma keep_as_meta_deleted_when_read_witness :
  ∃ res' tree' pr',
    contentSecurityPolicy DocumentTree "V" Samples.no_header
      [Samples.meta (Samples.kept_props "Content-Security-Policy"
                       Samples.plain_policy)]
    = Returns (res', tree')
    ∧ Hast.element_at [0] tree' = Some ("meta", pr')
    ∧ pr' !! "keep-as-meta" = None.
Proof.
  destruct (keep_as_meta_deleted_when_read DocumentTree "V" Samples.no_header
              [Samples.meta (Samples.kept_props "Content-Security-Policy"
                               Samples.plain_policy)]
              [0]
              (Samples.kept_props "Content-Security-Policy" Samples.plain_policy)
              Samples.plain_policy)
    as (res' & tree' & Hrun & Hkeep);
    [vm_compute; reflexivity ..|].
  destruct Hkeep as (pr' & Hel & Hnone).
  exists res', tree', pr'. auto.
Defined.

Lemma headers_set_other name value res other :
  other ≠ name → headers (headers_set name value res) !! other = headers res !! other.
Proof. intros H. simpl. by rewrite lookup_insert_ne. Qed.


(** ** Where the two call sites part *)

(** C1 at a failing input. The header asks for script nonces, the head
    fragment is [<div><script></script></div><script></script>]: render.js
    stamps the script that is a direct child and leaves the nested one
    without a nonce, where the tree module stamps both. *)
Lemma render_leaves_nested_script_without_nonce :
  let res := Samples.with_header Samples.script_policy in
  let head := [Samples.div [Samples.script]; Samples.script] in
  needs Samples.script_policy = (true, false)
  ∧ (∃ res' head',
       contentSecurityPolicy HeadFragment "V" res head = Returns (res', head')
       ∧ headers res' !! CSP = Some "default-src 'self'; script-src 'nonce-V'"
       ∧ Hast.elements head'
         = [("div", ∅); ("script", ∅); ("script", {[ "nonce" := PStr "V" ]})])
  ∧ (∃ res' tree',
       contentSecurityPolicy DocumentTree "V" res head = Returns (res', tree')
       ∧ Hast.elements tree'
         = [("div", ∅); ("script", {[ "nonce" := PStr "V" ]});
            ("script", {[ "nonce" := PStr "V" ]})]).
Proof.
  split; [vm_compute; reflexivity|].
  split; eexists _, _; (split; [vm_compute; reflexivity|]);
    vm_compute; auto.
Qed.

(** C2 at a failing input. Both call sites select the same Meta source and
    see the same (absent) header, and both promote it; the style and the
    stylesheet link below the [div] get the nonce from the tree module and
    nothing from render.js. *)
Lemma call_sites_differ_below_direct_children :
  let res := Samples.no_header in
  let tree :=
    [Samples.meta (Samples.meta_props "content-security-policy"
                     Samples.style_policy);
     Samples.div [Samples.style; Samples.stylesheet]] in
  meta_source HeadFragment tree = Some [0]
  ∧ meta_source DocumentTree tree = Some [0]
  ∧ contentSecurityPolicy HeadFragment "V" res tree
    = Returns (headers_set CSP "style-src 'nonce-V'" res,
               [Samples.div [Samples.style; Samples.stylesheet]])
  ∧ contentSecurityPolicy DocumentTree "V" res tree
    = Returns (headers_set CSP "style-src 'nonce-V'" res,
               [Samples.div
                  [Element "style" {[ "nonce" := PStr "V" ]} [];
                   Element "link" {[ "rel" := PList ["stylesheet"];
                                     "nonce" := PStr "V" ]} []]])
  ∧ contentSecurityPolicy HeadFragment "V" res tree
    ≠ contentSecurityPolicy DocumentTree "V" res tree.
Proof.
  repeat split; try (vm_compute; reflexivity).
  vm_compute. discriminate.
Qed.

(** C3 at failing inputs. A [meta] whose http-equiv is written
    [CONTENT-SECURITY-POLICY] is a Meta source (the first match ignoring
    case); it has no keep-as-meta property and there is no header. The tree
    module does not find it and returns the response and the tree as they
    were: the header stays unset and the element stays in the tree, where
    render.js promotes the content and removes the element. On
    [<div><meta ...></div>] it is render.js that finds no Meta source and
    does nothing, and the tree module that promotes. *)
Lemma promotion_is_skipped_where_the_lookup_misses :
  let capitals :=
    [Samples.meta
       (Samples.meta_props "CONTENT-SECURITY-POLICY" Samples.plain_policy)] in
  let nested :=
    [Samples.div
       [Samples.meta
          (Samples.meta_props "content-security-policy" Samples.plain_policy)]] in
  let promoted := headers_set CSP Samples.plain_policy Samples.no_header in
  header_source Samples.no_header = None
  ∧ (first_meta_ignoring_case capitals = Some [0]
     ∧ contentSecurityPolicy DocumentTree "V" Samples.no_header capitals
       = Returns (Samples.no_header, capitals)
     ∧ contentSecurityPolicy HeadFragment "V" Samples.no_header capitals
       = Returns (promoted, []))
  ∧ (first_meta_ignoring_case nested = Some [0; 0]
     ∧ contentSecurityPolicy HeadFragment "V" Samples.no_header nested
       = Returns (Samples.no_header, nested)
     ∧ contentSecurityPolicy DocumentTree "V" Samples.no_header nested
       = Returns (promoted, [])).
Proof. vm_compute. auto 10. Qed.

(** C7 at failing inputs. With a [Content-Security-Policy] meta before a
    [content-security-policy] one, [getMetaCSP] returns the second, not the
    first in document order; a meta in another casing is not found by
    [getMetaCSP] at all, though render.js finds it; and render.js does not
    find a meta that is not a direct child. *)
Lemma getMetaCSP_is_not_first_match_ignoring_case :
  let title_first :=
    [Samples.meta (Samples.meta_props "Content-Security-Policy" "script-src 'self'");
     Samples.meta (Samples.meta_props "content-security-policy" "script-src 'none'")] in
  let upper :=
    [Samples.meta (Samples.meta_props "CONTENT-SECURITY-POLICY" "script-src 'self'")] in
  let nested :=
    [Samples.div
       [Samples.meta (Samples.meta_props "content-security-policy" "script-src 'self'")]] in
  (first_meta_ignoring_case title_first = Some [0]
   ∧ Csp.getMetaCSP title_first = Some [1]
   ∧ Render.find_meta title_first = Some [0])
  ∧ (first_meta_ignoring_case upper = Some [0]
     ∧ Csp.getMetaCSP upper = None
     ∧ Render.find_meta upper = Some [0])
  ∧ (first_meta_ignoring_case nested = Some [0; 0]
     ∧ Csp.getMetaCSP nested = Some [0; 0]
     ∧ Render.find_meta nested = None).
Proof. vm_compute. auto 10. Qed.

(** ** The stamping of the tree module *)

Module StampFacts.
Import Hast.

Lemma elements_of_map_node g n :
  elements_of (map_node g n) = map (retag g) (elements_of n).
Proof.
  induction n as [t pr ch IH| | |] using node_ind; try done.
  simpl. f_equal. induction IH as [|x l Hx _ IHl]; [done|].
  simpl. by rewrite map_app, Hx, IHl.
Qed.

Lemma elements_map_node g tree :
  elements (map (map_node g) tree) = map (retag g) (elements tree).
Proof.
  unfold elements. induction tree as [|x l IH]; [done|].
  simpl. by rewrite map_app, elements_of_map_node, IH.
Qed.

Lemma elem_of_elements e tree :
  e ∈ elements tree ↔ ∃ n, n ∈ tree ∧ e ∈ elements_of n.
Proof.
  unfold elements. rewrite list_elem_of_In, in_flat_map.
  by setoid_rewrite list_elem_of_In.
Qed.

Lemma elem_of_alter {A} (f : A → A) i (l : list A) y :
  y ∈ alter f i l → y ∈ l ∨ ∃ x, l !! i = Some x ∧ y = f x.
Proof.
  intros [j Hj]%list_elem_of_lookup. destruct (decide (i = j)) as [->|Hij].
  - rewrite list_lookup_alter_eq in Hj. destruct (l !! j) as [x|]; [|done].
    right. exists x. by simplify_eq/=.
  - rewrite list_lookup_alter_ne in Hj by done. left.
    by eapply list_elem_of_lookup_2.
Qed.

(** Changing the properties at one place changes one element, of the same
    tag name. *)
Lemma elements_of_alter_node g q n e :
  e ∈ elements_of (alter_node g q n) →
  e ∈ elements_of n
  ∨ ∃ pr ch, node_at q n = Some (Element e.1 pr ch) ∧ e.2 = g pr.
Proof.
  revert n. induction q as [|i q IH]; intros n.
  - destruct n as [t pr ch| | |]; simpl; auto.
    intros [->|H]%elem_of_cons; [right; eauto|left]. by apply elem_of_cons; right.
  - destruct n as [t pr ch| | |]; simpl; auto.
    intros [->|H]%elem_of_cons; [left; apply list_elem_of_here|].
    change (e ∈ elements (alter (alter_node g q) i ch)) in H.
    apply elem_of_elements in H as (n' & Hn' & He).
    apply elem_of_alter in Hn' as [Hn'|(x & Hx & ->)].
    + left. apply elem_of_cons. right.
      change (e ∈ elements ch). apply elem_of_elements. eauto.
    + rewrite Hx. simpl. apply IH in He as [He|He]; [|by right].
      left. apply elem_of_cons. right.
      change (e ∈ elements ch). apply elem_of_elements.
      exists x. split; [|done]. by eapply list_elem_of_lookup_2.
Qed.

Lemma elements_alter_at g p tree e :
  e ∈ elements (alter_at g p tree) →
  e ∈ elements tree ∨ ∃ pr, element_at p tree = Some (e.1, pr) ∧ e.2 = g pr.
Proof.
  destruct p as [|i q]; [by left|]. simpl.
  intros (n' & Hn' & He)%elem_of_elements.
  apply elem_of_alter in Hn' as [Hn'|(x & Hx & ->)].
  - left. apply elem_of_elements. eauto.
  - apply elements_of_alter_node in He as [He|(pr & ch & Hq & Hg)].
    + left. apply elem_of_elements. exists x. split; [|done].
      by eapply list_elem_of_lookup_2.
    + right. exists pr. unfold element_at. simpl. rewrite Hx. simpl.
      by rewrite Hq.
Qed.

Lemma elements_stamp nonce flags tree :
  elements (stamp DocumentTree nonce flags tree)
  = map (retag (stamped_properties nonce flags)) (elements tree).
Proof.
  unfold stamp, stamp_scripts, stamp_styles, Select.forEach_selected.
  assert (∀ f, (∀ e, f e = e) → elements tree = map f (elements tree)) as Hid.
  { intros f Hf. rewrite <- (map_id (elements tree)) at 1. by apply map_ext. }
  destruct flags as [[] []]; simpl; rewrite ?elements_map_node, ?map_map;
    (apply map_ext || apply Hid); by intros [t pr].
Qed.

Lemma matches_link_set_nonce nonce t pr :
  Select.matches Select.link_stylesheet t (set_nonce nonce pr)
  = Select.matches Select.link_stylesheet t pr.
Proof.
  unfold Select.matches, set_nonce. simpl. by rewrite lookup_insert_ne.
Qed.

(** Scripts get the nonce when the script flag is set and are left alone
    otherwise; the same for styles and stylesheet links and the style flag. *)
Lemma stamped_properties_spec nonce flags t pr :
  let pr' := stamped_properties nonce flags t pr in
  (t = "script" →
   if flags.1 then pr' !! "nonce" = Some (PStr nonce) else pr' = pr)
  ∧ (Select.matches Select.style t pr'
     || Select.matches Select.link_stylesheet t pr' = true →
     if flags.2 then pr' !! "nonce" = Some (PStr nonce) else pr' = pr).
Proof.
  unfold stamped_properties. split.
  - intros ->. destruct flags as [[] []]; simpl;
      unfold set_nonce; rewrite ?lookup_insert_eq; done.
  - destruct flags as [f1 f2]. unfold Select.matches. simpl.
    rewrite !andb_true_r.
    destruct (String.eqb_spec t "script") as [->|H1]; simpl.
    { destruct f1, f2; simpl; done. }
    rewrite !andb_false_r.
    destruct (String.eqb_spec t "style") as [->|H2]; simpl.
    { intros _. destruct f2; simpl; [|done].
      unfold set_nonce. by rewrite lookup_insert_eq. }
    rewrite !andb_false_r.
    destruct (String.eqb_spec t "link") as [->|H3]; simpl; [|by rewrite !andb_false_r].
    destruct f2; simpl; [|done].
    destruct (match Select.normalizeValue "rel" (pr !! "rel") with
              | Some s => String.eqb s "stylesheet"
              | None => false
              end) eqn:Hrel.
    + intros _. unfold set_nonce. by rewrite lookup_insert_eq.
    + by rewrite Hrel.
Qed.
End StampFacts.

Lemma either_none flags : either (false, false) flags = flags.
Proof. by destruct flags. Qed.

(** After a nonce step of the tree module, every element that is not a
    [meta] is an element of the input tree with the stamped properties. *)
Lemma tree_module_elements nonce res tree res' tree' t pr :
  contentSecurityPolicy DocumentTree nonce res tree = Returns (res', tree') →
  nonce_branch (meta_content DocumentTree tree) (header_source res) = true →
  (t, pr) ∈ Hast.elements tree' →
  t ≠ "meta" →
  ∃ pr0, (t, pr0) ∈ Hast.elements tree
         ∧ pr = stamped_properties nonce
                  (either (needs_opt (meta_content DocumentTree tree))
                          (needs_opt (header_source res))) t pr0.
Proof.
  intros Hrun Hon Hin Ht. unfold meta_content in *.
  destruct (meta_source DocumentTree tree) as [p|] eqn:Hfind.
  - destruct (meta_source_element _ _ _ Hfind) as [pr1 Hel].
    rewrite Hel in *.
    destruct (pr1 !! "content") as [[c| |]|] eqn:Hc;
      try (rewrite (contentSecurityPolicy_throws _ _ _ _ _ _ Hfind Hel) in Hrun;
           [done|by unfold content_of; rewrite Hc]).
    rewrite (contentSecurityPolicy_meta _ _ _ _ _ _ _ Hfind Hel Hc) in Hrun.
    pose proof (element_at_after_nonce DocumentTree nonce tree p pr1 c
                  (header_source res) Hel) as Hel1.
    unfold tree_after_nonce in *. rewrite Hon in *.
    set (flags := either (needs c) (needs_opt (header_source res))) in *.
    set (tree0 := Hast.alter_at (set_content (rewrite_nonce nonce c)) p tree) in *.
    assert ((t, pr) ∈ Hast.elements (stamp DocumentTree nonce flags tree0)) as H1.
    { destruct (header_source res) as [h|]; [by simplify_eq|].
      destruct (Hast.truthy (pr1 !! "keep-as-meta")); simplify_eq.
      - apply StampFacts.elements_alter_at in Hin as [?|(? & Hp & _)]; [done|].
        rewrite Hel1 in Hp. by simplify_eq.
      - destruct (UnistFacts.remove_elements _ _ _ Hel1)
          as (b & g & a & Hall & Hrm & _).
        rewrite Hrm in Hin. rewrite Hall.
        apply elem_of_app in Hin as [?|?]; set_solver. }
    rewrite StampFacts.elements_stamp in H1.
    apply list_elem_of_In, in_map_iff in H1 as ([t0 pr0] & Heq & Hin0).
    apply list_elem_of_In in Hin0. unfold retag in Heq.
    simpl in Heq. simplify_eq.
    apply StampFacts.elements_alter_at in Hin0 as [?|(? & Hp & _)]; [eauto|].
    rewrite Hel in Hp. by simplify_eq.
  - rewrite (contentSecurityPolicy_no_meta _ _ _ _ Hfind) in Hrun.
    unfold nonce_branch in Hon. simpl in *.
    destruct (header_source res) as [h|]; [|done]. simpl in *.
    rewrite Hon in Hrun. simplify_eq.
    rewrite StampFacts.elements_stamp in Hin.
    apply list_elem_of_In, in_map_iff in Hin as ([t0 pr0] & Heq & Hin0).
    apply list_elem_of_In in Hin0. unfold retag in Heq.
    simpl in Heq. simplify_eq. rewrite either_none. eauto.
Qed.

(** The tree module keeps the stamping part of C1: after a nonce step
    every script of the resulting tree carries the nonce when the parsed
    [script-src] of a present source contained [nonce], and is an element of
    the input tree with the properties it had otherwise; the same holds for
    styles and stylesheet links and [style-src]. *)
Theorem tree_module_stamps_governed_elements nonce res tree res' tree' :
  contentSecurityPolicy DocumentTree nonce res tree = Returns (res', tree') →
  nonce_branch (meta_content DocumentTree tree) (header_source res) = true →
  let flags := either (needs_opt (meta_content DocumentTree tree))
                      (needs_opt (header_source res)) in
  ∀ t pr, (t, pr) ∈ Hast.elements tree' →
    (t = "script" →
     if flags.1 then pr !! "nonce" = Some (PStr nonce)
     else (t, pr) ∈ Hast.elements tree)
    ∧ (Select.matches Select.style t pr
       || Select.matches Select.link_stylesheet t pr = true →
       if flags.2 then pr !! "nonce" = Some (PStr nonce)
       else (t, pr) ∈ Hast.elements tree).
Proof.
  intros Hrun Hon flags t pr Hin.
  pose proof (tree_module_elements _ _ _ _ _ t pr Hrun Hon Hin) as Hfrom.
  fold flags in Hfrom. split.
  - intros ->. destruct Hfrom as (pr0 & Hin0 & ->); [done|].
    pose proof (StampFacts.stamped_properties_spec nonce flags "script" pr0)
      as [H _]. specialize (H eq_refl).
    destruct flags.1; [done|]. by rewrite H.
  - intros Hm. destruct Hfrom as (pr0 & Hin0 & ->).
    { intros ->. by rewrite orb_false_r in Hm. }
    pose proof (StampFacts.stamped_properties_spec nonce flags t pr0)
      as [_ H]. specialize (H Hm).
    destruct flags.2; [done|]. by rewrite H.
Qed.

(** ** Strings: splitting, trimming, joining *)

Module JsFacts.
Import Js.

#[local] Arguments String.append : simpl nomatch.

Lemma app_nil_r s : s +:+ "" = s.
Proof. induction s; simpl; congruence. Qed.

Lemma app_assoc s t u : (s +:+ t) +:+ u = s +:+ t +:+ u.
Proof. induction s; simpl; congruence. Qed.

Lemma has_app c s t : has c (s +:+ t) = has c s || has c t.
Proof. induction s as [|a s IH]; simpl; [done|]. by rewrite IH, orb_assoc. Qed.

Lemma split_nonempty c s : split c s ≠ [].
Proof.
  destruct s as [|a s]; simpl; [done|].
  destruct (decide (a = c)); [done|]. by destruct (split c s).
Qed.

Lemma split_cons_other c a s :
  a ≠ c →
  split c (String a s) = String a (hd "" (split c s)) :: tl (split c s).
Proof.
  intros H. simpl. rewrite decide_False by done.
  pose proof (split_nonempty c s). by destruct (split c s).
Qed.

Lemma split_none c s : has c s = false → split c s = [s].
Proof.
  induction s as [|a s IH]; simpl; [done|].
  intros [Ha Hs]%orb_false_iff. apply bool_decide_eq_false in Ha.
  rewrite decide_False by done. by rewrite IH.
Qed.

Lemma split_app c x y :
  has c x = false → split c (x +:+ String c y) = x :: split c y.
Proof.
  induction x as [|a x IH]; simpl.
  - intros _. by rewrite decide_True.
  - intros [Ha Hx]%orb_false_iff. apply bool_decide_eq_false in Ha.
    rewrite decide_False by done. by rewrite IH.
Qed.

(** Joining the pieces with the separator gives the string back. *)
Lemma join_split c s : join (String c "") (split c s) = s.
Proof.
  unfold join. induction s as [|a s IH]; simpl; [done|].
  pose proof (split_nonempty c s) as Hne.
  destruct (decide (a = c)) as [->|].
  - destruct (split c s) as [|x xs]; [done|].
    simpl in *. by rewrite IH.
  - destruct (split c s) as [|x [|y xs]]; [done|..]; simpl in *;
      by rewrite <- IH.
Qed.

Lemma split_first_has c s : has c (hd "" (split c s)) = false.
Proof.
  induction s as [|a s IH]; simpl; [done|].
  pose proof (split_nonempty c s) as Hne.
  destruct (decide (a = c)); [done|].
  destruct (split c s); [done|]. simpl in *.
  rewrite IH, orb_false_r. by apply bool_decide_eq_false.
Qed.

(** Trimming *)

Lemma trimEnd_head a s :
  trimEnd (String a s) = "" ∨ ∃ t, trimEnd (String a s) = String a t.
Proof.
  simpl. destruct (trimEnd s); [destruct (is_ws a)|]; eauto.
Qed.

Lemma trimEnd_keeps_head a s :
  is_ws a = false → ∃ t, trimEnd (String a s) = String a t.
Proof.
  intros H. simpl. destruct (trimEnd s); [rewrite H|]; eauto.
Qed.

Lemma trimEnd_idem s : trimEnd (trimEnd s) = trimEnd s.
Proof.
  induction s as [|a s IH]; simpl; [done|].
  destruct (trimEnd s) as [|b t] eqn:Ht.
  - destruct (is_ws a) eqn:Ha; simpl; [done|]. by rewrite Ha.
  - simpl in *. by rewrite IH.
Qed.

Lemma trimStart_fixed a s : is_ws a = false → trimStart (String a s) = String a s.
Proof. intros H. simpl. by rewrite H. Qed.

Lemma trimStart_shape s :
  trimStart s = "" ∨ ∃ a t, trimStart s = String a t ∧ is_ws a = false.
Proof.
  induction s as [|a s IH]; simpl; [by left|].
  destruct (is_ws a) eqn:Ha; [done|]. right. eauto.
Qed.

Lemma trim_shape s :
  trim s = "" ∨ ∃ a t, trim s = String a t ∧ is_ws a = false.
Proof.
  unfold trim. destruct (trimStart_shape s) as [->|(a & t & -> & Ha)].
  - by left.
  - right. destruct (trimEnd_keeps_head a t Ha) as [u ->]. eauto.
Qed.

Lemma trim_idem s : trim (trim s) = trim s.
Proof.
  destruct (trim_shape s) as [->|(a & t & Hs & Ha)]; [done|].
  rewrite Hs. unfold trim. rewrite (trimStart_fixed _ _ Ha).
  rewrite <- Hs. unfold trim. apply trimEnd_idem.
Qed.

Lemma trim_space_l s : trim (String " " s) = trim s.
Proof. done. Qed.

Lemma trimEnd_space_r s : trimEnd (s +:+ " ") = trimEnd s.
Proof.
  induction s as [|a s IH]; simpl; [done|]. by rewrite IH.
Qed.

Lemma trimStart_app s t :
  trimStart (s +:+ t)
  = match trimStart s with
    | "" => trimStart t
    | u => u +:+ t
    end.
Proof.
  induction s as [|a s IH]; simpl; [by destruct (trimStart t)|].
  by destruct (is_ws a).
Qed.

Lemma trim_space_r s : trim (s +:+ " ") = trim s.
Proof.
  unfold trim. rewrite trimStart_app.
  destruct (trimStart s) as [|a u]; [done|]. apply trimEnd_space_r.
Qed.

Lemma has_trimStart c s : has c s = false → has c (trimStart s) = false.
Proof.
  induction s as [|a s IH]; simpl; [done|].
  intros [Ha Hs]%orb_false_iff. destruct (is_ws a); simpl; auto.
  by rewrite Ha, Hs.
Qed.

Lemma has_trimEnd c s : has c s = false → has c (trimEnd s) = false.
Proof.
  induction s as [|a s IH]; simpl; [done|].
  intros [Ha Hs]%orb_false_iff. specialize (IH Hs).
  destruct (trimEnd s); [destruct (is_ws a)|]; simpl in *;
    rewrite ?Ha, ?IH; done.
Qed.

Lemma has_trim c s : has c s = false → has c (trim s) = false.
Proof. intros H. by apply has_trimEnd, has_trimStart. Qed.

Lemma split_pieces_have_none c s : Forall (λ x, has c x = false) (split c s).
Proof.
  induction s as [|a s IH]; simpl; [by repeat constructor|].
  pose proof (split_nonempty c s) as Hne.
  destruct (decide (a = c)); [by constructor|].
  destruct (split c s) as [|x xs]; [done|].
  inversion_clear IH as [|?? Hx Hxs]. constructor; [|done].
  simpl. rewrite Hx, orb_false_r. by apply bool_decide_eq_false.
Qed.

(** Replacing *)

Lemma prefix_app r x : String.prefix r (r +:+ x) = true.
Proof.
  induction r as [|a r IH]; simpl; [by destruct x|].
  by destruct (ascii_dec a a).
Qed.

Lemma includes_app_l r x : includes r (r +:+ x) = true.
Proof.
  destruct r as [|a r]; simpl.
  - by destruct x.
  - fold (String.append r x). destruct (ascii_dec a a); [|done].
    by rewrite prefix_app.
Qed.

Lemma includes_cons r a s : includes r s = true → includes r (String a s) = true.
Proof. intros H. simpl. rewrite H. apply orb_true_r. Qed.

(** A text that contains the needle contains the replacement afterwards. *)
Lemma replaceAll_includes needle repl s :
  needle ≠ "" →
  includes needle s = true →
  includes repl (replaceAll needle repl s) = true.
Proof.
  intros Hne. unfold replaceAll. induction s as [|a s IH].
  - by destruct needle.
  - intros H. cbn [replaceFrom].
    destruct (String.prefix needle (String a s)) eqn:Hp.
    + apply includes_app_l.
    + apply includes_cons, IH.
      change (String.prefix needle (String a s) || includes needle s = true) in H.
      by rewrite Hp in H.
Qed.

End JsFacts.

(** ** parseCSP *)

Module ParseFacts.
Import Js JsFacts.

#[local] Arguments String.append : simpl nomatch.

Lemma parse_part_eq result part :
  parse_part result part = set_prop (directive_of part) (value_of part) result.
Proof. done. Qed.

Lemma tokens_join part :
  join " " (directive_of part :: values_of part) = trim part.
Proof.
  unfold directive_of, values_of.
  rewrite <- (join_split " " (trim part)) at 3.
  pose proof (split_nonempty " " (trim part)).
  by destruct (split " " (trim part)).
Qed.

(** A segment is its directive alone, or directive, space, value. *)
Lemma part_shape part :
  (value_of part = "" ∧ trim part = directive_of part)
  ∨ trim part = directive_of part +:+ " " +:+ value_of part.
Proof.
  pose proof (tokens_join part) as H. unfold value_of.
  destruct (values_of part) as [|y r]; [by left|by right].
Qed.

Lemma directive_no_space part : has " " (directive_of part) = false.
Proof. apply split_first_has. Qed.

Lemma same_trim part part' :
  trim part = trim part' →
  directive_of part = directive_of part' ∧ value_of part = value_of part'.
Proof. unfold value_of, directive_of, values_of. by intros ->. Qed.

(** Putting directive and value together again trims to the segment. *)
Lemma trim_rebuilt part :
  trim (directive_of part +:+ " " +:+ value_of part) = trim part.
Proof.
  destruct (part_shape part) as [[-> H]| <-].
  - rewrite <- H, trim_space_r. apply trim_idem.
  - apply trim_idem.
Qed.

Lemma rebuilt_no_semicolon part :
  has ";" part = false →
  has ";" (directive_of part +:+ " " +:+ value_of part) = false.
Proof.
  intros H%has_trim. destruct (part_shape part) as [[-> Ht]|Ht].
  - rewrite has_app, <- Ht, H. done.
  - by rewrite <- Ht.
Qed.

(** What [parseCSP] stores for a name is decided by the last segment with
    that name; [__proto__] is never stored. *)
Lemma foldl_parse_proto l m0 :
  foldl parse_part m0 l !! "__proto__" = m0 !! "__proto__".
Proof.
  revert m0. induction l as [|x l IH]; intros m0; simpl; [done|].
  rewrite IH. unfold parse_part, set_prop.
  case_decide; [done|]. by rewrite lookup_insert_ne.
Qed.

Lemma foldl_parse_lookup l m0 d v :
  d ≠ "__proto__" →
  foldl parse_part m0 l !! d = Some v
  ↔ (∃ before part after,
       l = before ++ part :: after
       ∧ directive_of part = d ∧ value_of part = v
       ∧ Forall (λ later, directive_of later ≠ d) after)
    ∨ (Forall (λ part, directive_of part ≠ d) l ∧ m0 !! d = Some v).
Proof.
  intros Hd. revert m0. induction l as [|x l IH]; intros m0; simpl.
  - split; [by right|]. intros [(b & ? & ? & H & _)|[_ H]]; [|done].
    by destruct b.
  - rewrite IH. rewrite parse_part_eq. unfold set_prop. split.
    + intros [(b & part & a & -> & H)|[Hall Hm]].
      * left. by exists (x :: b), part, a.
      * case_decide as Hp.
        { right. split; [|done]. constructor; [congruence|done]. }
        destruct (decide (directive_of x = d)) as [Hx|Hx].
        { rewrite Hx, lookup_insert_eq in Hm. left. exists [], x, l.
          by simplify_eq. }
        rewrite lookup_insert_ne in Hm by done. right. by split; [constructor|].
    + intros [(b & part & a & Hl & Hpart & Hv & Hall)|[Hall Hm]].
      * destruct b as [|x' b]; simplify_eq/=.
        -- right. split; [done|]. rewrite decide_False by done.
           by rewrite lookup_insert_eq.
        -- left. by exists b, part, a.
      * inversion_clear Hall as [|?? Hx Hl]. right. split; [done|].
        case_decide; [done|]. by rewrite lookup_insert_ne.
Qed.

End ParseFacts.

(** C8, as stated, fails: two spaces after the directive name leave a space
    at the head of the value, a tab does not separate name and value, the
    empty segment after the last [;] is stored under the empty name, and a
    directive named [__proto__] is not stored. *)
Lemma parseCSP_is_not_the_whitespace_parser :
  let spaces := "script-src  'self';" in
  let tab := "script-src" +:+ String "009" "'nonce'" in
  parseCSP spaces = {[ "script-src" := " 'self'"; "" := "" ]}
  ∧ Spec.parse spaces = {[ "script-src" := "'self'" ]}
  ∧ parseCSP tab = {[ tab := "" ]}
  ∧ Spec.parse tab = {[ "script-src" := "'nonce'" ]}
  ∧ parseCSP "" = {[ "" := "" ]}
  ∧ Spec.parse "" = ∅
  ∧ parseCSP "__proto__ x" = ∅
  ∧ Spec.parse "__proto__ x" = {[ "__proto__" := "x" ]}
  ∧ ¬ (∀ csp, parseCSP csp = Spec.parse csp).
Proof.
  repeat split; try (vm_compute; reflexivity).
  intros H. specialize (H ""). vm_compute in H. discriminate.
Qed.

(** C8, amended. [parseCSP] splits the text on [;] and every segment, the
    empty ones too, is trimmed and split at each single space: the first
    piece is the directive name and the other pieces, joined by single
    spaces again, are the value, so that name and pieces joined by spaces
    are the trimmed segment. The value stored for a name comes from the
    last segment with that name; nothing is stored for the name
    [__proto__]. Every string parses; the empty string gives one entry,
    with the empty name and the empty value. *)
Theorem parseCSP_entries csp d v :
  (parseCSP csp !! d = Some v
   ↔ d ≠ "__proto__"
     ∧ ∃ before part after,
         Js.split ";"%char csp = before ++ part :: after
         ∧ directive_of part = d
         ∧ Js.join " " (values_of part) = v
         ∧ Forall (λ later, directive_of later ≠ d) after)
  ∧ (∀ part, Js.join " " (directive_of part :: values_of part) = Js.trim part)
  ∧ parseCSP "" = {[ "" := "" ]}.
Proof.
  split; [|split; [apply ParseFacts.tokens_join|done]].
  unfold parseCSP. destruct (decide (d = "__proto__")) as [->|Hd].
  - rewrite ParseFacts.foldl_parse_proto, lookup_empty.
    split; [done|]. by intros [? _].
  - rewrite (ParseFacts.foldl_parse_lookup _ _ _ _ Hd). rewrite lookup_empty.
    unfold value_of. split.
    + intros [H|[_ [=]]]. by split.
    + intros [_ H]. by left.
Qed.

(** ** Parsing a reconstruction *)

Module ReparseFacts.
Import Js JsFacts ParseFacts.

#[local] Arguments String.append : simpl nomatch.

Lemma parseCSP_stored csp d v : parseCSP csp !! d = Some v → stored (d, v).
Proof.
  intros H. unfold parseCSP in H.
  destruct (decide (d = "__proto__")) as [->|Hd].
  { by rewrite foldl_parse_proto in H. }
  apply (foldl_parse_lookup _ _ _ _ Hd) in H
    as [(b & part & a & Hl & Hpart & Hv & _)|[_ [=]]].
  split; [done|]. exists part. split; [|done].
  pose proof (split_pieces_have_none ";" csp) as Hall. rewrite Hl in Hall.
  apply Forall_app in Hall as [_ Hall]. by inversion Hall.
Qed.

Lemma parse_part_rebuilt m e :
  stored e → parse_part m (rebuilt e) = <[e.1 := e.2]> m.
Proof.
  intros [Hp (part & _ & Hk & Hv)]. rewrite parse_part_eq.
  destruct (same_trim (rebuilt e) part) as [-> ->].
  { unfold rebuilt. rewrite <- Hk, <- Hv. apply trim_rebuilt. }
  rewrite Hk, Hv. unfold set_prop. by rewrite decide_False.
Qed.

Lemma parse_part_space m x : parse_part m (String " " x) = parse_part m x.
Proof.
  rewrite !parse_part_eq.
  by destruct (same_trim (String " " x) x (trim_space_l x)) as [-> ->].
Qed.

Lemma stored_no_semicolon e : stored e → has ";" (rebuilt e) = false.
Proof.
  intros [_ (part & H & Hk & Hv)]. unfold rebuilt. rewrite <- Hk, <- Hv.
  by apply ParseFacts.rebuilt_no_semicolon.
Qed.

Lemma split_joined x xs :
  Forall (λ y, has ";" y = false) (x :: xs) →
  split ";" (join "; " (x :: xs)) = x :: map (String " "%char) xs.
Proof.
  revert x. induction xs as [|y r IH]; intros x Hall.
  - inversion_clear Hall. by apply split_none.
  - inversion_clear Hall as [|?? Hx Hr].
    change (join "; " (x :: y :: r))
      with (x +:+ String ";" (String " " (join "; " (y :: r)))).
    rewrite (split_app _ _ _ Hx), split_cons_other by done.
    by rewrite (IH _ Hr).
Qed.

Lemma foldl_spaced m0 l :
  Forall stored l →
  foldl parse_part m0 (map (String " "%char) (map rebuilt l))
  = foldl (λ m e, <[e.1 := e.2]> m) m0 l.
Proof.
  revert m0. induction l as [|e l IH]; intros m0 Hall; [done|].
  inversion_clear Hall as [|?? He Hl]. simpl.
  by rewrite parse_part_space, (parse_part_rebuilt _ _ He), (IH _ Hl).
Qed.

Lemma parse_reconstruct l :
  l ≠ [] → Forall stored l →
  parseCSP (Spec.reconstruct l) = foldl (λ m e, <[e.1 := e.2]> m) ∅ l.
Proof.
  intros Hne Hall. destruct l as [|e l]; [done|].
  unfold parseCSP, Spec.reconstruct.
  change (map (λ e, e.1 +:+ " " +:+ e.2) (e :: l))
    with (rebuilt e :: map rebuilt l).
  rewrite split_joined.
  - inversion_clear Hall as [|?? He Hl]. simpl.
    by rewrite (parse_part_rebuilt _ _ He), (foldl_spaced _ _ Hl).
  - change (rebuilt e :: map rebuilt l) with (map rebuilt (e :: l)).
    apply Forall_map. eapply Forall_impl; [exact Hall|].
    intros ?. apply stored_no_semicolon.
Qed.

Lemma foldl_insert_lookup (l : list (string * string))
    (m0 : gmap string string) d :
  NoDup l.*1 →
  foldl (λ (m : gmap string string) e, <[e.1 := e.2]> m) m0 l !! d
  = match (list_to_map l : gmap string string) !! d with
    | Some v => Some v
    | None => m0 !! d
    end.
Proof.
  revert m0. induction l as [|[k v] l IH]; intros m0 Hnd; [done|].
  apply NoDup_cons in Hnd as [Hk Hnd]. simpl. rewrite (IH _ Hnd).
  destruct (decide (k = d)) as [->|Hkd].
  - rewrite !lookup_insert_eq.
    by rewrite (not_elem_of_list_to_map_1 _ _ Hk).
  - by rewrite !lookup_insert_ne.
Qed.

Lemma foldl_insert_entries (l : list (string * string)) (m : gmap string string) :
  l ≡ₚ map_to_list m →
  foldl (λ (m : gmap string string) e, <[e.1 := e.2]> m) ∅ l = m.
Proof.
  intros Hl. assert (NoDup l.*1) as Hnd.
  { rewrite Hl. apply NoDup_fst_map_to_list. }
  apply map_eq. intros d. rewrite (foldl_insert_lookup _ _ _ Hnd).
  rewrite (list_to_map_proper _ _ Hnd Hl), list_to_map_to_list.
  by destruct (m !! d).
Qed.

End ReparseFacts.

(** C9. Parser idempotence: take the entries of [parseCSP s] in any order
    (the order in which JS enumerates the object is one), write each as
    directive, space, value and join them with [; ]; parsing that text gives
    a mapping that agrees with [parseCSP s] on every directive with a
    non-empty value. It is [parseCSP s] itself unless that is empty. *)
Theorem parseCSP_reconstruct_parse s (entries : list (string * string)) :
  entries ≡ₚ map_to_list (parseCSP s) →
  (∀ d v, v ≠ "" →
     parseCSP (Spec.reconstruct entries) !! d = Some v
     ↔ parseCSP s !! d = Some v)
  ∧ (entries ≠ [] → parseCSP (Spec.reconstruct entries) = parseCSP s).
Proof.
  intros Hl.
  assert (entries ≠ [] → parseCSP (Spec.reconstruct entries) = parseCSP s) as Heq.
  { intros Hne. rewrite ReparseFacts.parse_reconstruct; [|done|].
    - by apply ReparseFacts.foldl_insert_entries.
    - rewrite Hl. apply Forall_forall. intros [d v] Hin%elem_of_map_to_list.
      by eapply ReparseFacts.parseCSP_stored. }
  split; [|done]. intros d v Hv.
  destruct entries as [|e l]; [|by rewrite Heq].
  symmetry in Hl. apply Permutation_nil_r, map_to_list_empty_iff in Hl.
  rewrite Hl, lookup_empty.
  change (Spec.reconstruct []) with "".
  assert (parseCSP "" = {[ "" := "" ]}) as -> by done.
  split; [|done]. by intros [_ <-]%lookup_singleton_Some.
Qed.

Lemma parseCSP_reconstruct_parse_witness :
  parseCSP (Spec.reconstruct [("default-src", "'self'");
                               ("script-src", "'nonce' 'self'")])
  = parseCSP "default-src 'self'; script-src 'none'; script-src 'nonce' 'self'".
Proof.
  refine (proj2 (parseCSP_reconstruct_parse
                   "default-src 'self'; script-src 'none'; script-src 'nonce' 'self'"
                   [("default-src", "'self'"); ("script-src", "'nonce' 'self'")]
                   _) _); [|done].
  vm_compute. apply Permutation_swap.
Defined.

(** ** The rewritten texts *)

(** A policy text that contained [nonce] contains [nonce-V] once rewritten. *)
Lemma rewritten_text_has_nonce nonce text :
  Js.includes "nonce" text = true →
  Js.includes ("nonce-" +:+ nonce) (rewrite_nonce nonce text) = true.
Proof. by apply JsFacts.replaceAll_includes. Qed.

(** After a nonce step, at either call site, a header CSP value that was
    present has every [nonce] replaced by [nonce-V]. *)
Lemma nonce_step_rewrites_header s nonce res tree res' tree' h :
  contentSecurityPolicy s nonce res tree = Returns (res', tree') →
  nonce_branch (meta_content s tree) (header_source res) = true →
  header_source res = Some h →
  headers res' !! CSP = Some (rewrite_nonce nonce h).
Proof.
  intros Hrun Hon Hh. unfold meta_content in Hon.
  destruct (meta_source s tree) as [p|] eqn:Hfind.
  - destruct (meta_source_element _ _ _ Hfind) as [pr Hel]. rewrite Hel in Hon.
    destruct (pr !! "content") as [[c| |]|] eqn:Hc;
      try (rewrite (contentSecurityPolicy_throws _ _ _ _ _ _ Hfind Hel) in Hrun;
           [done|by unfold content_of; rewrite Hc]).
    rewrite (contentSecurityPolicy_meta _ _ _ _ _ _ _ Hfind Hel Hc) in Hrun.
    rewrite Hh in *. unfold header_after_nonce in Hrun. rewrite Hon in Hrun.
    simplify_eq. simpl. by rewrite lookup_insert_eq.
  - rewrite (contentSecurityPolicy_no_meta _ _ _ _ Hfind) in Hrun.
    rewrite Hh in *. unfold nonce_branch in Hon. simpl in Hon.
    rewrite Hon in Hrun. simplify_eq. simpl. by rewrite lookup_insert_eq.
Qed.

(** * Further properties of the two files *)

(** ** Substrings *)

Module SubstringFacts.
Import Js JsFacts.

#[local] Arguments String.append : simpl nomatch.

Lemma prefix_iff n s : String.prefix n s = true ↔ ∃ b, s = n +:+ b.
Proof.
  revert s. induction n as [|a n IH]; intros s; simpl.
  - split; [intros _; by exists s|]. by destruct s.
  - destruct s as [|a' s]; simpl.
    + split; [done|]. by intros [b [=]].
    + destruct (ascii_dec a a') as [->|Hne].
      * rewrite IH. split; intros [b Hb]; exists b; congruence.
      * split; [done|]. intros [b [=]]. done.
Qed.

(** [includes] is the substring test. *)
Lemma includes_iff n s : includes n s = true ↔ ∃ a b, s = a +:+ n +:+ b.
Proof.
  induction s as [|c s IH].
  - change (includes n "") with (String.prefix n "" || false).
    rewrite orb_false_r, prefix_iff. split.
    + intros [b Hb]. by exists "", b.
    + intros (a & b & H). destruct a; [by exists b|done].
  - change (includes n (String c s))
      with (String.prefix n (String c s) || includes n s).
    rewrite orb_true_iff, prefix_iff, IH. split.
    + intros [[b Hb]|(a & b & Hab)].
      * by exists "", b.
      * exists (String c a), b. simpl. by rewrite Hab.
    + intros (a & b & Hab). destruct a as [|c' a]; simpl in Hab.
      * left. by exists b.
      * right. exists a, b. congruence.
Qed.

Lemma includes_substring n s a b :
  includes n s = true → includes n (a +:+ s +:+ b) = true.
Proof.
  rewrite !includes_iff. intros (a' & b' & ->).
  exists (a +:+ a'), (b' +:+ b). by rewrite !app_assoc.
Qed.

Lemma split_first_prefix c s : ∃ b, s = hd "" (split c s) +:+ b.
Proof.
  pose proof (join_split c s) as H. unfold join in H.
  destruct (split c s) as [|y [|z zs]]; simpl in *.
  - by exists s.
  - exists "". by rewrite app_nil_r.
  - eexists. by rewrite <- H.
Qed.

Lemma split_piece_substring c s x :
  x ∈ split c s → ∃ a b, s = a +:+ x +:+ b.
Proof.
  revert x. induction s as [|a s IH]; intros x; simpl.
  - intros ->%list_elem_of_singleton. by exists "", "".
  - pose proof (split_nonempty c s) as Hne.
    pose proof (split_first_prefix c s) as [b0 Hb0].
    destruct (decide (a = c)) as [->|Hac].
    + intros [->|Hx]%elem_of_cons.
      * by exists "", (String c s).
      * destruct (IH _ Hx) as (a' & b' & ->). by exists (String c a'), b'.
    + destruct (split c s) as [|y ys] eqn:Hs; [done|].
      intros [->|Hx]%elem_of_cons.
      * exists "", b0. simpl in *. by rewrite <- Hb0.
      * destruct (IH x) as (a' & b' & ->); [by right|].
        by exists (String a a'), b'.
Qed.

Lemma trimStart_suffix s : ∃ a, s = a +:+ trimStart s.
Proof.
  induction s as [|c s [a IH]]; simpl; [by exists ""|].
  destruct (is_ws c); [|by exists ""].
  exists (String c a). simpl. by rewrite <- IH.
Qed.

Lemma trimEnd_prefix s : ∃ b, s = trimEnd s +:+ b.
Proof.
  induction s as [|c s [b IH]]; simpl; [by exists ""|].
  destruct (trimEnd s) as [|d t] eqn:Ht.
  - destruct (is_ws c); [by exists (String c s)|].
    exists s. done.
  - exists b. simpl in *. by rewrite <- IH.
Qed.

Lemma trim_substring s : ∃ a b, s = a +:+ trim s +:+ b.
Proof.
  unfold trim. destruct (trimStart_suffix s) as [a Ha].
  destruct (trimEnd_prefix (trimStart s)) as [b Hb].
  exists a, b. by rewrite <- Hb.
Qed.

(** No match, no change. *)
Lemma replaceAll_none needle repl s :
  includes needle s = false → replaceAll needle repl s = s.
Proof.
  unfold replaceAll. induction s as [|a s IH]; [done|].
  change (includes needle (String a s))
    with (String.prefix needle (String a s) || includes needle s).
  intros [Hp Hs]%orb_false_iff. cbn [replaceFrom]. rewrite Hp.
  by rewrite IH.
Qed.

Lemma length_app s t : String.length (s +:+ t) = String.length s + String.length t.
Proof. induction s; simpl; [done|]. by rewrite IHs. Qed.

Lemma prefix_length n s : String.prefix n s = true → String.length n ≤ String.length s.
Proof. intros [b ->]%prefix_iff. rewrite length_app. lia. Qed.

Lemma replaceFrom_length needle repl skip s :
  0 < String.length needle ≤ String.length repl →
  String.length s ≤ skip + String.length (replaceFrom needle repl skip s).
Proof.
  intros Hlen. revert skip. induction s as [|a s IH]; intros skip; [simpl; lia|].
  destruct skip as [|k]; cbn [replaceFrom].
  - destruct (String.prefix needle (String a s)) eqn:Hp.
    + rewrite length_app. specialize (IH (String.length needle - 1)).
      apply prefix_length in Hp. cbn [String.length] in *. lia.
    + cbn [String.length]. specialize (IH 0). lia.
  - specialize (IH k). cbn [String.length]. lia.
Qed.

(** A match makes the text longer when the replacement is longer than the
    needle. *)
Lemma replaceAll_longer needle repl s :
  0 < String.length needle < String.length repl →
  includes needle s = true →
  String.length s < String.length (replaceAll needle repl s).
Proof.
  intros Hlen. unfold replaceAll. induction s as [|a s IH].
  - change (includes needle "") with (String.prefix needle "" || false).
    rewrite orb_false_r. intros Hp%prefix_length. cbn [String.length] in *. lia.
  - change (includes needle (String a s))
      with (String.prefix needle (String a s) || includes needle s).
    cbn [replaceFrom]. destruct (String.prefix needle (String a s)) eqn:Hp.
    + intros _. rewrite length_app.
      pose proof (replaceFrom_length needle repl (String.length needle - 1) s
                    ltac:(lia)).
      apply prefix_length in Hp. cbn [String.length] in *. lia.
    + cbn [String.length]. intros Hs%IH. lia.
Qed.

(** Replacing a code unit by a text without it leaves none behind, and
    brings in no code unit that neither the text nor the replacement had. *)
Lemma has_replaceFrom c needle repl skip s :
  has c s = false → has c repl = false →
  has c (replaceFrom needle repl skip s) = false.
Proof.
  intros Hs Hr. revert skip Hs. induction s as [|a s IH]; intros skip Hs; [done|].
  cbn [has] in Hs. apply orb_false_iff in Hs as [Ha Hs].
  destruct skip as [|k]; cbn [replaceFrom]; [|auto].
  destruct (String.prefix needle (String a s)).
  - rewrite has_app, Hr. simpl. auto.
  - cbn [has]. rewrite Ha. simpl. auto.
Qed.

Lemma has_replaceAll_char c repl s :
  has c repl = false → has c (replaceAll (String c "") repl s) = false.
Proof.
  intros Hr. unfold replaceAll. induction s as [|a s IH]; [done|].
  cbn [replaceFrom String.prefix String.length].
  destruct (ascii_dec c a) as [->|Hne].
  - assert (String.prefix "" s = true) as -> by (by destruct s).
    rewrite has_app, Hr. simpl. apply IH.
  - cbn [has]. rewrite IH, orb_false_r. apply bool_decide_eq_false. congruence.
Qed.

End SubstringFacts.

(** ** The body pre-check *)

(** The pre-check answers [true] exactly when the body holds
    [http-equiv="content-security-policy"] or
    [http-equiv="Content-Security-Policy"] somewhere, and [undefined]
    exactly when there is no body. *)
Theorem body_check_finds_the_two_spellings res :
  (Csp.checkResponseBodyForMetaBasedCSP res = Some true
   ↔ ∃ text before value after,
       body res = Some text
       ∧ (value = "content-security-policy" ∨ value = "Content-Security-Policy")
       ∧ text = before +:+ Csp.http_equiv_attribute value +:+ after)
  ∧ (Csp.checkResponseBodyForMetaBasedCSP res = None ↔ body res = None).
Proof.
  unfold Csp.checkResponseBodyForMetaBasedCSP.
  destruct (body res) as [text|]; split; try (split; done).
  - split.
    + intros [= [H|H]%orb_true_iff];
        apply SubstringFacts.includes_iff in H as (a & b & ->); eauto 10.
    + intros (? & a & value & b & [= <-] & Hv & ->). f_equal.
      apply orb_true_iff.
      destruct Hv as [->| ->]; [left|right];
        apply SubstringFacts.includes_iff; eauto.
  - split; [done|]. by intros (? & ? & ? & ? & [=] & _).
Qed.

(** ** More on parseCSP *)

Module ParseMore.
Import Js JsFacts ParseFacts SubstringFacts.

#[local] Arguments String.append : simpl nomatch.

Lemma split_app_any c a b :
  split c (a +:+ String c b) = split c a ++ split c b.
Proof.
  induction a as [|x a IH]; simpl.
  - by rewrite decide_True.
  - destruct (decide (x = c)); [by rewrite IH|].
    rewrite IH. pose proof (split_nonempty c a).
    by destruct (split c a).
Qed.

Lemma set_prop_union k v (m1 m2 : gmap string string) :
  set_prop k v (m1 ∪ m2) = set_prop k v m1 ∪ m2.
Proof. unfold set_prop. case_decide; [done|]. by rewrite insert_union_l. Qed.

Lemma foldl_parse_union l (m0 : gmap string string) :
  foldl parse_part m0 l = foldl parse_part ∅ l ∪ m0.
Proof.
  induction l as [|x l IH] using rev_ind; simpl.
  - by rewrite (left_id_L ∅ (∪)).
  - rewrite !foldl_app. simpl. rewrite IH. apply set_prop_union.
Qed.

Lemma value_suffix part : ∃ a, trim part = a +:+ value_of part.
Proof.
  destruct (part_shape part) as [[-> H]|H].
  - exists (trim part). by rewrite app_nil_r.
  - exists (directive_of part +:+ " "). by rewrite app_assoc.
Qed.

Lemma value_substring csp d v :
  parseCSP csp !! d = Some v → ∃ a b, csp = a +:+ v +:+ b.
Proof.
  intros H. unfold parseCSP in H.
  destruct (decide (d = "__proto__")) as [->|Hd].
  { by rewrite foldl_parse_proto in H. }
  apply (foldl_parse_lookup _ _ _ _ Hd) in H
    as [(before & part & after & Hl & _ & <- & _)|[_ [=]]].
  destruct (split_piece_substring ";" csp part) as (a1 & b1 & ->).
  { rewrite Hl. apply elem_of_app. right. by left. }
  destruct (trim_substring part) as (a2 & b2 & Hp).
  destruct (value_suffix part) as [a3 Hv].
  exists (a1 +:+ a2 +:+ a3), (b2 +:+ b1).
  rewrite Hp, Hv at 1. by rewrite !app_assoc.
Qed.

Lemma empty_name_empty_value part : directive_of part = "" → value_of part = "".
Proof.
  intros Hd. destruct (part_shape part) as [[-> _]|H]; [done|].
  rewrite Hd in H. destruct (trim_shape part) as [Ht|(a & t & Ht & Ha)].
  - rewrite Ht in H. done.
  - rewrite Ht in H. simpl in H. injection H as -> _. done.
Qed.

Lemma directive_with_nonce csp d :
  includes_opt "nonce" (parseCSP csp !! d) = true → includes "nonce" csp = true.
Proof.
  unfold includes_opt. destruct (parseCSP csp !! d) as [v|] eqn:Hv; [|done].
  intros Hin. apply value_substring in Hv as (a & b & ->).
  by apply includes_substring.
Qed.

Lemma needs_nothing csp :
  includes "nonce" csp = false → needs csp = (false, false).
Proof.
  intros H. unfold needs, Csp.shouldApplyNonce.
  f_equal; apply not_true_is_false; intros H'%directive_with_nonce; congruence.
Qed.

End ParseMore.

(** Appending a policy after a [;] overrides: the directives of the second
    text win, the others are those of the first. *)
Theorem parseCSP_append first second :
  parseCSP (first +:+ ";" +:+ second) = parseCSP second ∪ parseCSP first.
Proof.
  unfold parseCSP.
  change (first +:+ ";" +:+ second) with (first +:+ String ";" second).
  rewrite ParseMore.split_app_any, foldl_app.
  apply ParseMore.foldl_parse_union.
Qed.

(** What [parseCSP] stores: a name has no space and no [;] and is not
    [__proto__], a value has no [;], the value is a part of the text, and
    only the empty value goes with the empty name. *)
Theorem parseCSP_stores_clean_entries csp d v :
  parseCSP csp !! d = Some v →
  d ≠ "__proto__"
  ∧ has " " d = false ∧ has ";" d = false ∧ has ";" v = false
  ∧ (∃ before after, csp = before +:+ v +:+ after)
  ∧ (d = "" → v = "").
Proof.
  intros H. pose proof (ParseMore.value_substring _ _ _ H) as Hsub.
  apply ReparseFacts.parseCSP_stored in H as [Hp (part & Hpart & Hd & Hv)].
  simpl in *. subst d v.
  pose proof (ParseFacts.rebuilt_no_semicolon _ Hpart) as Hno.
  rewrite !JsFacts.has_app in Hno.
  apply orb_false_iff in Hno as [Hno1 [_ Hno2]%orb_false_iff].
  repeat split; auto using ParseFacts.directive_no_space,
    ParseMore.empty_name_empty_value.
Qed.

Lemma parseCSP_stores_clean_entries_witness :
  has ";" "'nonce' 'self'" = false
  ∧ ∃ before after,
      "default-src 'none'; script-src 'nonce' 'self' ;"
      = before +:+ "'nonce' 'self'" +:+ after.
Proof.
  destruct (parseCSP_stores_clean_entries
              "default-src 'none'; script-src 'nonce' 'self' ;"
              "script-src" "'nonce' 'self'")
    as (_ & _ & _ & Hv & Hsub & _); [vm_compute; reflexivity|].
  by split.
Defined.

(** A stamping flag is set only for a text that contains [nonce]: the
    test that guards [createAndApplyNonce] never skips a text that would
    have asked for a nonce. *)
Theorem flags_need_nonce_in_text csp script style :
  Csp.shouldApplyNonce csp = (script, style) →
  script || style = true →
  Js.includes "nonce" csp = true.
Proof.
  unfold Csp.shouldApplyNonce. intros [= <- <-] [H|H]%orb_true_iff;
    by eapply ParseMore.directive_with_nonce.
Qed.

Lemma flags_need_nonce_in_text_witness :
  Js.includes "nonce" "default-src 'self'; style-src 'nonce-x'" = true.
Proof.
  apply (flags_need_nonce_in_text
           "default-src 'self'; style-src 'nonce-x'" false true);
    vm_compute; reflexivity.
Defined.

(** A directive given twice counts at its last occurrence: the flags of a
    policy followed by [;] and a second policy are those of the second
    policy for the directives it names, and those of the first for the
    others. *)
Theorem later_directive_decides_the_flag first second :
  Csp.shouldApplyNonce (first +:+ ";" +:+ second)
  = (match parseCSP second !! "script-src" with
     | Some v => Js.includes "nonce" v
     | None => (Csp.shouldApplyNonce first).1
     end,
     match parseCSP second !! "style-src" with
     | Some v => Js.includes "nonce" v
     | None => (Csp.shouldApplyNonce first).2
     end).
Proof.
  assert (parseCSP (first +:+ ";" +:+ second) = parseCSP second ∪ parseCSP first)
    as Happ.
  { unfold parseCSP.
    change (first +:+ ";" +:+ second) with (first +:+ String ";" second).
    rewrite ParseMore.split_app_any, foldl_app.
    apply ParseMore.foldl_parse_union. }
  unfold Csp.shouldApplyNonce. rewrite Happ, !lookup_union. simpl.
  by destruct (parseCSP second !! "script-src"),
    (parseCSP second !! "style-src"),
    (parseCSP first !! "script-src"), (parseCSP first !! "style-src").
Qed.

(** ** Rewriting *)

(** Rewriting leaves a text without [nonce] as it is; a text with [nonce]
    gets longer and still contains [nonce], so that rewriting it again
    changes it again. *)
Theorem rewrite_nonce_changes_exactly_texts_with_nonce nonce text :
  if Js.includes "nonce" text
  then String.length text < String.length (rewrite_nonce nonce text)
       ∧ Js.includes "nonce" (rewrite_nonce nonce text) = true
       ∧ rewrite_nonce nonce (rewrite_nonce nonce text) ≠ rewrite_nonce nonce text
  else rewrite_nonce nonce text = text.
Proof.
  destruct (Js.includes "nonce" text) eqn:Hin.
  - assert (∀ t, Js.includes "nonce" t = true →
                 String.length t < String.length (rewrite_nonce nonce t)) as Hlen.
    { intros t Ht. apply SubstringFacts.replaceAll_longer; [|done].
      rewrite SubstringFacts.length_app. simpl. lia. }
    assert (Js.includes "nonce" (rewrite_nonce nonce text) = true) as Hstill.
    { pose proof (JsFacts.replaceAll_includes "nonce" ("nonce-" +:+ nonce) text
                    ltac:(done) Hin) as H.
      apply SubstringFacts.includes_iff in H as (a & b & H).
      unfold rewrite_nonce. rewrite H.
      apply SubstringFacts.includes_iff.
      exists a, ("-" +:+ nonce +:+ b). by rewrite !JsFacts.app_assoc. }
    split; [auto|]. split; [done|].
    intros Heq. specialize (Hlen _ Hstill). rewrite Heq in Hlen. lia.
  - by apply SubstringFacts.replaceAll_none.
Qed.

(** ** The step without [nonce] in the texts *)

Module IdleFacts.
Import Hast.

Lemma alter_node_id g q n t pr ch :
  node_at q n = Some (Element t pr ch) → g pr = pr → alter_node g q n = n.
Proof.
  intros Hq Hg. revert n Hq. induction q as [|i q IH]; intros n Hq.
  - simpl in Hq. injection Hq as ->. simpl. by rewrite Hg.
  - destruct n as [t' pr' ch'| | |]; try done. simpl in *. f_equal.
    destruct (ch' !! i) as [x|] eqn:Hi; [|done]. simpl in Hq.
    apply list_eq. intros j. destruct (decide (i = j)) as [<-|Hij].
    + rewrite list_lookup_alter_eq, Hi. simpl. by rewrite (IH _ Hq).
    + by rewrite list_lookup_alter_ne.
Qed.

(** Writing the value a property already has changes nothing. *)
Lemma alter_at_id g p tree t pr :
  element_at p tree = Some (t, pr) → g pr = pr → alter_at g p tree = tree.
Proof.
  unfold element_at. destruct p as [|i q]; [done|]. simpl.
  destruct (tree !! i) as [x|] eqn:Hi; [|done]. simpl.
  destruct (node_at q x) as [[t' pr' ch| | |]|] eqn:Hq; try done.
  intros [= -> ->] Hg. apply list_eq. intros j.
  destruct (decide (i = j)) as [<-|Hij].
  - rewrite list_lookup_alter_eq, Hi. simpl.
    by rewrite (alter_node_id _ _ _ _ _ _ Hq Hg).
  - by rewrite list_lookup_alter_ne.
Qed.

Lemma set_same_content pr c :
  pr !! "content" = Some (PStr c) → set_content c pr = pr.
Proof. intros H. unfold set_content. by apply insert_id. Qed.

Lemma header_without_nonce nonce res :
  Js.includes_opt "nonce" (header_source res) = false →
  match header_source res with
  | Some h => headers_set CSP (rewrite_nonce nonce h) res
  | None => res
  end = res
  ∧ needs_opt (header_source res) = (false, false).
Proof.
  unfold header_source. destruct (Js.if_truthy (headers res !! CSP)) as [h|] eqn:Hh;
    [|done].
  simpl. intros Hin. split; [|by apply ParseMore.needs_nothing].
  unfold rewrite_nonce. rewrite SubstringFacts.replaceAll_none by done.
  by apply headers_set_same, if_truthy_Some.
Qed.

End IdleFacts.

(** When no present text contains [nonce], [createAndApplyNonce] would
    change nothing at all: the test around its call only saves the work. *)
Theorem createAndApplyNonce_is_idle_without_nonce s nonce res tree metaCSP :
  match metaCSP with
  | Some p =>
      ∃ pr c, Hast.element_at p tree = Some ("meta", pr)
              ∧ pr !! "content" = Some (PStr c)
              ∧ Js.includes "nonce" c = false
  | None => True
  end →
  Js.includes_opt "nonce" (header_source res) = false →
  createAndApplyNonce s nonce res tree metaCSP (headers res !! CSP)
  = Returns (res, tree).
Proof.
  intros Hmeta Hheader.
  destruct (IdleFacts.header_without_nonce nonce res Hheader) as [Hres Hflags].
  unfold header_source in *.
  destruct metaCSP as [p|].
  - destruct Hmeta as (pr & c & Hel & Hc & Hin).
    rewrite (createAndApplyNonce_meta _ _ _ _ _ _ _ _ Hel Hc), Hres, Hflags.
    rewrite (ParseMore.needs_nothing _ Hin). unfold rewrite_nonce.
    rewrite SubstringFacts.replaceAll_none by done.
    by rewrite (IdleFacts.alter_at_id _ _ _ _ _ Hel
                  (IdleFacts.set_same_content _ _ Hc)).
  - by rewrite createAndApplyNonce_header, Hres, Hflags.
Qed.

Lemma createAndApplyNonce_is_idle_without_nonce_witness :
  createAndApplyNonce HeadFragment "V" (Samples.with_header Samples.plain_policy)
    [Samples.meta (Samples.meta_props "content-security-policy" "img-src *");
     Samples.script]
    (Some [0])
    (headers (Samples.with_header Samples.plain_policy) !! CSP)
  = Returns
      (Samples.with_header Samples.plain_policy,
       [Samples.meta (Samples.meta_props "content-security-policy" "img-src *");
        Samples.script]).
Proof.
  apply (createAndApplyNonce_is_idle_without_nonce HeadFragment "V"
           (Samples.with_header Samples.plain_policy)
           [Samples.meta (Samples.meta_props "content-security-policy" "img-src *");
            Samples.script]
           (Some [0])).
  - exists (Samples.meta_props "content-security-policy" "img-src *"), "img-src *".
    vm_compute. auto.
  - vm_compute. reflexivity.
Defined.

Lemma nonce_branch_content_only c header :
  nonce_branch (Some c) header = false → nonce_branch (Some c) None = false.
Proof.
  unfold nonce_branch. simpl. intros [-> _]%orb_false_iff. done.
Qed.

(** With a header CSP value and no [nonce] in any present text, the step
    returns the response and the tree as they were, at both call sites. *)
Theorem step_is_idle_with_header_without_nonce s nonce res tree h :
  header_source res = Some h →
  nonce_branch (meta_content s tree) (Some h) = false →
  (meta_source s tree = None ∨ ∃ c, meta_content s tree = Some c) →
  contentSecurityPolicy s nonce res tree = Returns (res, tree).
Proof.
  intros Hh Hon Hmeta. unfold meta_content in *.
  destruct (meta_source s tree) as [p|] eqn:Hfind.
  - destruct Hmeta as [?|[c Hc]]; [done|].
    destruct (meta_source_element _ _ _ Hfind) as [pr Hel]. rewrite Hel in *.
    destruct (pr !! "content") as [[c'| |]|] eqn:Hc'; try done.
    rewrite (contentSecurityPolicy_meta _ _ _ _ _ _ _ Hfind Hel Hc'), Hh.
    unfold header_after_nonce, tree_after_nonce. rewrite Hon.
    rewrite headers_set_same; [done|]. by apply if_truthy_Some.
  - rewrite (contentSecurityPolicy_no_meta _ _ _ _ Hfind), Hh.
    unfold nonce_branch in Hon. simpl in Hon. by rewrite Hon.
Qed.

Lemma step_is_idle_with_header_without_nonce_witness :
  contentSecurityPolicy DocumentTree "V"
    (Samples.with_header Samples.plain_policy)
    [Samples.div
       [Samples.meta (Samples.kept_props "Content-Security-Policy" "img-src *")];
     Samples.script]
  = Returns
      (Samples.with_header Samples.plain_policy,
       [Samples.div
          [Samples.meta (Samples.kept_props "Content-Security-Policy" "img-src *")];
        Samples.script]).
Proof.
  apply (step_is_idle_with_header_without_nonce DocumentTree "V"
           (Samples.with_header Samples.plain_policy)
           [Samples.div
              [Samples.meta
                 (Samples.kept_props "Content-Security-Policy" "img-src *")];
            Samples.script]
           Samples.plain_policy).
  - vm_compute. reflexivity.
  - vm_compute. reflexivity.
  - right. exists "img-src *". vm_compute. reflexivity.
Defined.

(** The random nonce matters only when a present text contains [nonce]:
    otherwise the step gives the same result for every nonce. *)
Theorem nonce_is_unused_without_nonce s nonce1 nonce2 res tree :
  nonce_branch (meta_content s tree) (header_source res) = false →
  contentSecurityPolicy s nonce1 res tree = contentSecurityPolicy s nonce2 res tree.
Proof.
  intros Hon. unfold meta_content in *.
  destruct (meta_source s tree) as [p|] eqn:Hfind.
  - destruct (meta_source_element _ _ _ Hfind) as [pr Hel]. rewrite Hel in *.
    destruct (pr !! "content") as [[c| |]|] eqn:Hc;
      try (rewrite !(contentSecurityPolicy_throws _ _ _ _ _ _ Hfind Hel);
           [done|by unfold content_of; rewrite Hc..]).
    rewrite !(contentSecurityPolicy_meta _ _ _ _ _ _ _ Hfind Hel Hc).
    unfold header_after_nonce, tree_after_nonce, content_after_nonce.
    rewrite (nonce_branch_content_only _ _ Hon).
    destruct (header_source res) as [h|]; [|by rewrite Hon].
    by rewrite Hon.
  - rewrite !(contentSecurityPolicy_no_meta _ _ _ _ Hfind).
    unfold nonce_branch in Hon. simpl in Hon.
    destruct (header_source res) as [h|]; [|done]. simpl in Hon. by rewrite Hon.
Qed.

Lemma nonce_is_unused_without_nonce_witness :
  contentSecurityPolicy HeadFragment "V" Samples.no_header
    [Samples.meta (Samples.meta_props "content-security-policy" "img-src *")]
  = contentSecurityPolicy HeadFragment "W" Samples.no_header
      [Samples.meta (Samples.meta_props "content-security-policy" "img-src *")].
Proof.
  apply (nonce_is_unused_without_nonce HeadFragment "V" "W" Samples.no_header
           [Samples.meta
              (Samples.meta_props "content-security-policy" "img-src *")]).
  vm_compute. reflexivity.
Defined.

(** ** Stamping *)

Module StampMore.
Import Hast.

Lemma map_node_compose g f n :
  map_node g (map_node f n) = map_node (λ t pr, g t (f t pr)) n.
Proof.
  induction n as [t pr ch IH| | |] using node_ind; try done.
  simpl. f_equal. rewrite map_map. apply map_ext_Forall. exact IH.
Qed.

Lemma map_map_node_compose g f tree :
  map (map_node g) (map (map_node f) tree)
  = map (map_node (λ t pr, g t (f t pr))) tree.
Proof. rewrite map_map. apply map_ext. intros n. apply map_node_compose. Qed.

Lemma map_node_ext g f n :
  (∀ t pr, g t pr = f t pr) → map_node g n = map_node f n.
Proof.
  intros H. induction n as [t pr ch IH| | |] using node_ind; try done.
  simpl. rewrite H. f_equal. apply map_ext_Forall. exact IH.
Qed.

Lemma map_node_id g n : (∀ t pr, g t pr = pr) → map_node g n = n.
Proof.
  intros H. induction n as [t pr ch IH| | |] using node_ind; try done.
  simpl. rewrite H. f_equal. rewrite <- (map_id ch) at 2.
  apply map_ext_Forall. exact IH.
Qed.

(** The tree module's loops as one pass. *)
Lemma stamp_tree nonce flags tree :
  stamp DocumentTree nonce flags tree
  = map (map_node (stamped_properties nonce flags)) tree.
Proof.
  assert (∀ g, (∀ t pr, g t pr = pr) → tree = map (map_node g) tree) as Hid.
  { intros g Hg. rewrite <- (map_id tree) at 1. apply map_ext.
    intros n. symmetry. by apply map_node_id. }
  unfold stamp, stamp_scripts, stamp_styles, Select.forEach_selected.
  destruct flags as [[] []]; simpl; rewrite ?map_map_node_compose;
    (apply map_ext; intros n; apply map_node_ext; done) || (by apply Hid).
Qed.

(** The loops of render.js as one pass over the direct children. *)
Lemma stamp_head nonce flags head :
  stamp HeadFragment nonce flags head
  = map (map_top (render_stamped_properties nonce flags)) head.
Proof.
  assert (∀ f, (∀ n, f n = n) → head = map f head) as Hid.
  { intros f Hf. rewrite <- (map_id head) at 1. by apply map_ext. }
  unfold stamp, stamp_scripts, stamp_styles.
  destruct flags as [[] []]; simpl; rewrite ?map_map;
    (apply map_ext || apply Hid); by intros [t pr ch| | |].
Qed.

Lemma set_nonce_twice nonce pr : set_nonce nonce (set_nonce nonce pr) = set_nonce nonce pr.
Proof. unfold set_nonce. apply insert_insert_eq. Qed.

Lemma is_style_set_nonce nonce t pr :
  Render.is_style t (set_nonce nonce pr) = Render.is_style t pr.
Proof. unfold Render.is_style, set_nonce. by rewrite lookup_insert_ne. Qed.

(** An element gets the nonce or is left alone, and what decides does not
    look at the nonce. *)
Lemma stamped_properties_cases nonce flags t pr :
  let go := flags.1 && Select.matches Select.script t pr
            || flags.2 && (Select.matches Select.style t pr
                           || Select.matches Select.link_stylesheet t pr) in
  stamped_properties nonce flags t pr = if go then set_nonce nonce pr else pr.
Proof.
  unfold stamped_properties.
  assert (∀ x, Select.matches Select.style t (set_nonce nonce x)
               = Select.matches Select.style t pr) as Hst by done.
  assert (Select.matches Select.style t pr = Select.matches Select.style t pr)
    as _ by done.
  destruct flags as [f1 f2]. simpl.
  destruct (f1 && Select.matches Select.script t pr) eqn:H1; simpl;
    rewrite ?Hst;
    destruct (f2 && Select.matches Select.style t pr) eqn:H2; simpl;
    rewrite ?StampFacts.matches_link_set_nonce, ?set_nonce_twice;
    destruct f2; simpl in *; rewrite ?H2; simpl;
    destruct (Select.matches Select.link_stylesheet t pr); simpl;
    rewrite ?set_nonce_twice, ?orb_true_r; try done.
Qed.

Lemma render_stamped_properties_cases nonce flags t pr :
  let go := flags.1 && String.eqb t "script" || flags.2 && Render.is_style t pr in
  render_stamped_properties nonce flags t pr
  = if go then set_nonce nonce pr else pr.
Proof.
  unfold render_stamped_properties. destruct flags as [f1 f2]. simpl.
  destruct (f1 && String.eqb t "script"); simpl;
    rewrite ?is_style_set_nonce;
    destruct (f2 && Render.is_style t pr); simpl;
    rewrite ?set_nonce_twice; done.
Qed.

Lemma stamped_properties_twice nonce flags t pr :
  stamped_properties nonce flags t (stamped_properties nonce flags t pr)
  = stamped_properties nonce flags t pr.
Proof.
  pose proof (stamped_properties_cases nonce flags t pr) as H1.
  pose proof (stamped_properties_cases nonce flags t (set_nonce nonce pr)) as H2.
  cbv zeta in *. rewrite StampFacts.matches_link_set_nonce in H2.
  change (Select.matches Select.script t (set_nonce nonce pr))
    with (Select.matches Select.script t pr) in H2.
  change (Select.matches Select.style t (set_nonce nonce pr))
    with (Select.matches Select.style t pr) in H2.
  destruct (_ || _) eqn:Hgo in H1; rewrite H1.
  - rewrite H2, Hgo. apply set_nonce_twice.
  - by rewrite H1.
Qed.

Lemma render_stamped_properties_twice nonce flags t pr :
  render_stamped_properties nonce flags t
    (render_stamped_properties nonce flags t pr)
  = render_stamped_properties nonce flags t pr.
Proof.
  pose proof (render_stamped_properties_cases nonce flags t pr) as H1.
  pose proof (render_stamped_properties_cases nonce flags t (set_nonce nonce pr))
    as H2.
  cbv zeta in *. rewrite is_style_set_nonce in H2.
  destruct (_ || _) eqn:Hgo in H1; rewrite H1.
  - rewrite H2, Hgo. apply set_nonce_twice.
  - by rewrite H1.
Qed.

Lemma delete_nonce_stamped nonce flags t pr :
  delete "nonce" (stamped_properties nonce flags t pr) = delete "nonce" pr.
Proof.
  rewrite stamped_properties_cases. cbv zeta. destruct (_ || _); [|done].
  unfold set_nonce. apply delete_insert_eq.
Qed.

Lemma delete_nonce_render_stamped nonce flags t pr :
  delete "nonce" (render_stamped_properties nonce flags t pr) = delete "nonce" pr.
Proof.
  rewrite render_stamped_properties_cases. cbv zeta. destruct (_ || _); [|done].
  unfold set_nonce. apply delete_insert_eq.
Qed.

End StampMore.

(** Stamping twice with the same nonce is stamping once, at both call
    sites. *)
Theorem stamp_is_idempotent s nonce flags tree :
  stamp s nonce flags (stamp s nonce flags tree) = stamp s nonce flags tree.
Proof.
  destruct s.
  - rewrite !StampMore.stamp_head, map_map. apply map_ext.
    intros [t pr ch| | |]; simpl; try done.
    by rewrite StampMore.render_stamped_properties_twice.
  - rewrite !StampMore.stamp_tree, StampMore.map_map_node_compose.
    apply map_ext. intros n. apply StampMore.map_node_ext.
    intros t pr. apply StampMore.stamped_properties_twice.
Qed.

(** Stamping writes [nonce] properties and nothing else: without them the
    stamped tree is the tree it was, and every element is where it was, with
    its properties as they were or with [nonce] set to the new value. *)
Theorem stamp_writes_only_nonce s nonce flags tree :
  without_nonce (stamp s nonce flags tree) = without_nonce tree
  ∧ ∀ p,
      match Hast.element_at p (stamp s nonce flags tree),
            Hast.element_at p tree with
      | Some (t', pr'), Some (t, pr) =>
          t' = t ∧ (pr' = pr ∨ pr' = set_nonce nonce pr)
      | None, None => True
      | _, _ => False
      end.
Proof.
  split.
  - unfold without_nonce. destruct s.
    + rewrite StampMore.stamp_head, map_map. apply map_ext.
      intros [t pr ch| | |]; simpl; try done.
      by rewrite StampMore.delete_nonce_render_stamped.
    + rewrite StampMore.stamp_tree, StampMore.map_map_node_compose.
      apply map_ext. intros n. apply StampMore.map_node_ext.
      intros t pr. apply StampMore.delete_nonce_stamped.
  - intros p. destruct s.
    + rewrite StampMore.stamp_head, HastFacts.element_at_map_top.
      destruct (Hast.element_at p tree) as [[t pr]|] eqn:Hel;
        destruct p as [|i [|j q]]; simpl; rewrite ?Hel; auto.
      rewrite StampMore.render_stamped_properties_cases. cbv zeta.
      destruct (_ || _); auto.
    + rewrite StampMore.stamp_tree, HastFacts.element_at_map_node.
      destruct (Hast.element_at p tree) as [[t pr]|]; simpl; [|done].
      rewrite StampMore.stamped_properties_cases. cbv zeta.
      destruct (_ || _); auto.
Qed.

(** ** Finding the Meta source *)

Lemma find_first_None test tree :
  Hast.find_first test tree = None →
  Forall (λ e, test e.1 e.2 = false) (Hast.elements tree).
Proof.
  intros H. apply OrderFacts.Forall_elements, Forall_forall. intros n Hn.
  apply OrderFacts.find_node_None.
  exact (proj1 (HastFacts.first_in_None _ _ _) H n Hn).
Qed.

(** [getMetaCSP] returns the first element in document order that carries
    the lower-case spelling; when no element carries it, the first one that
    carries [Content-Security-Policy]; and nothing when no element carries
    either spelling. *)
Theorem getMetaCSP_prefers_the_lowercase_spelling tree :
  let lower := Select.matches (Select.meta_http_equiv "content-security-policy") in
  let upper := Select.matches (Select.meta_http_equiv "Content-Security-Policy") in
  match Csp.getMetaCSP tree with
  | Some p =>
      ∃ before e after,
        Hast.elements tree = before ++ e :: after
        ∧ Hast.element_at p tree = Some e
        ∧ (lower e.1 e.2 = true
           ∧ Forall (λ x, lower x.1 x.2 = false) before
           ∨ upper e.1 e.2 = true
             ∧ Forall (λ x, upper x.1 x.2 = false) before
             ∧ Forall (λ x, lower x.1 x.2 = false) (Hast.elements tree))
  | None =>
      Forall (λ x, lower x.1 x.2 = false ∧ upper x.1 x.2 = false)
        (Hast.elements tree)
  end.
Proof.
  intros lower upper. unfold Csp.getMetaCSP, Select.select.
  destruct (Hast.find_first _ tree) as [p|] eqn:H1.
  - apply OrderFacts.find_first_first in H1 as (b & e & a & Hel & Hb & He & Hp).
    exists b, e, a. auto.
  - apply find_first_None in H1.
    destruct (Hast.find_first _ tree) as [p|] eqn:H2.
    + apply OrderFacts.find_first_first in H2 as (b & e & a & Hel & Hb & He & Hp).
      exists b, e, a. auto 6.
    + apply find_first_None in H2. rewrite Forall_forall in *. auto.
Qed.

Lemma find_meta_Some head p :
  Render.find_meta head = Some p →
  ∃ i el, p = [i] ∧ head !! i = Some el
          ∧ Render.is_meta_csp el = true
          ∧ ∀ k el', k < i → head !! k = Some el' →
              Render.is_meta_csp el' = false.
Proof.
  unfold Render.find_meta.
  intros (j & n & q & -> & Hj & Hn & Hfirst)%HastFacts.first_in_Some.
  exists j, n. destruct (Render.is_meta_csp n) eqn:Hm; [|done].
  injection Hn as <-. repeat split; auto.
  intros k el' Hk Hel'. specialize (Hfirst k el' Hk Hel').
  by destruct (Render.is_meta_csp el').
Qed.

(** render.js returns the first direct child that is a [meta] whose first
    http-equiv token is content-security-policy in any casing, and nothing
    when no direct child is one; it never looks below the direct
    children. *)
Theorem find_meta_is_first_direct_child head :
  match Render.find_meta head with
  | Some p =>
      ∃ i el, p = [i] ∧ head !! i = Some el
              ∧ Render.is_meta_csp el = true
              ∧ ∀ k el', k < i → head !! k = Some el' →
                  Render.is_meta_csp el' = false
  | None => ∀ el, el ∈ head → Render.is_meta_csp el = false
  end.
Proof.
  destruct (Render.find_meta head) as [p|] eqn:H.
  - by apply find_meta_Some.
  - by apply render_finds_no_meta.
Qed.

(** ** Building the head *)

Module ElementFacts.
Import Render.

Lemma pairs_ind {A} (P : list A → Prop) :
  P [] → (∀ k, P [k]) → (∀ k v l, P l → P (k :: v :: l)) → ∀ l, P l.
Proof.
  intros H0 H1 H2.
  assert (∀ l, P l ∧ ∀ k, P (k :: l)) as H.
  { induction l as [|a l [IH1 IH2]]; split; auto. }
  intros l. apply H.
Qed.

Lemma collect_None attrs ps :
  collect attrs ps = None
  ↔ ∃ i, 2 * i < length attrs ∧ default None (attrs !! (2 * i + 1)) = None.
Proof.
  revert ps. induction attrs as [|k|k v l IH] using pairs_ind; intros ps.
  - simpl. split; [done|]. intros (i & Hi & _). lia.
  - simpl. split; [|done]. intros _. exists 0. split; [lia|done].
  - destruct v as [value|].
    + change (collect (k :: Some value :: l) ps)
        with (collect l (set_prop (key_of k) value ps)).
      rewrite IH. split.
      * intros (i & Hi & Hv). exists (S i). split; [simpl; lia|].
        by replace (2 * S i + 1) with (S (S (2 * i + 1))) by lia.
      * intros ([|i] & Hi & Hv); [done|]. exists i. split; [simpl in Hi; lia|].
        by replace (2 * S i + 1) with (S (S (2 * i + 1))) in Hv by lia.
    + split; [|done]. intros _. exists 0. split; [simpl; lia|done].
Qed.

Lemma collect_Some attrs ps ps' k :
  collect attrs ps = Some ps' →
  ps' !! k = match given k attrs with
             | Some v => if decide (k = "__proto__") then ps !! k else Some v
             | None => ps !! k
             end.
Proof.
  revert ps. induction attrs as [|key|key v l IH] using pairs_ind; intros ps.
  - by intros [= ->].
  - done.
  - destruct v as [value|]; [|done].
    change (collect (key :: Some value :: l) ps)
      with (collect l (set_prop (key_of key) value ps)).
    intros H%IH. rewrite H. cbn [given].
    unfold set_prop.
    destruct (given k l) as [v|].
    + destruct (decide (k = "__proto__")) as [->|Hk]; [|done].
      destruct (decide (key_of key = "__proto__")) as [Heq|Hne]; [done|].
      by rewrite lookup_insert_ne.
    + destruct (decide (key_of key = k)) as [->|Hne].
      * destruct (decide (_ = "__proto__")); [done|]. by rewrite lookup_insert_eq.
      * destruct (decide (key_of key = "__proto__")); [done|].
        by rewrite lookup_insert_ne.
Qed.

End ElementFacts.

(** [createElement] returns [null] exactly when a value is [undefined], the
    value missing after an unpaired last name included; otherwise it hands
    [h] the tag name, no children and the properties in which every name has
    the value that follows its last occurrence, [__proto__] excepted, which
    is never stored. *)
Theorem createElement_null_iff_undefined_value h name attrs :
  match Render.createElement h name attrs with
  | None =>
      ∃ i, 2 * i < length attrs ∧ default None (attrs !! (2 * i + 1)) = None
  | Some el =>
      (∀ i, 2 * i < length attrs → ∃ v, attrs !! (2 * i + 1) = Some (Some v))
      ∧ ∃ properties,
          el = h name properties []
          ∧ ∀ k, properties !! k
                 = if decide (k = "__proto__") then None else given k attrs
  end.
Proof.
  unfold Render.createElement.
  destruct (Render.collect attrs ∅) as [ps|] eqn:H.
  - split.
    + intros i Hi.
      destruct (attrs !! (2 * i + 1)) as [[v|]|] eqn:Hv; [eauto|..];
        assert (Render.collect attrs ∅ = None) as Hn
          by (apply ElementFacts.collect_None; exists i; by rewrite Hv);
        congruence.
    + exists ps. split; [done|]. intros k.
      rewrite (ElementFacts.collect_Some _ _ _ k H), lookup_empty.
      destruct (given k attrs); by destruct (decide (k = "__proto__")).
  - by apply (ElementFacts.collect_None attrs ∅).
Qed.

(** The text [sanitizeJsonLd] hands to the JSON parser has no [<] and no
    [>] and no white space around it; a text without angle brackets is
    handed over trimmed and otherwise as it is. *)
Theorem sanitizeJsonLd_hands_over_no_angle_brackets jsonLd :
  ∃ text,
    (∀ json, Render.sanitizeJsonLd json jsonLd = json text)
    ∧ has "<" text = false ∧ has ">" text = false
    ∧ Js.trim text = text
    ∧ (has "<" jsonLd = false → has ">" jsonLd = false → text = Js.trim jsonLd).
Proof.
  exists (Js.trim (Render.escape_angles jsonLd)).
  split; [done|]. unfold Render.escape_angles.
  split; [|split; [|split]].
  - apply JsFacts.has_trim, SubstringFacts.has_replaceFrom; [|done].
    by apply SubstringFacts.has_replaceAll_char.
  - apply JsFacts.has_trim. by apply SubstringFacts.has_replaceAll_char.
  - apply JsFacts.trim_idem.
  - intros H1 H2.
    assert (∀ (c : ascii) r s, has c s = false → Js.replaceAll (String c "") r s = s)
      as Hnone.
    { intros c r s. unfold Js.replaceAll. induction s as [|a s IH]; [done|].
      cbn [has Js.replaceFrom String.prefix].
      intros [Ha%bool_decide_eq_false Hs]%orb_false_iff.
      destruct (ascii_dec c a) as [->|Hne]; [done|]. by rewrite IH. }
    by rewrite (Hnone "<"%char _ _ H1), (Hnone ">"%char _ _ H2).
Qed.

Module PageFacts.
Import Render.

Section with_h.
Variable h : string → gmap string string → list node → node.

Lemma append_meta children attr name v :
  attr ≠ "__proto__" →
  appendElement children
    (createElement h "meta" [Some attr; Some name; Some "content"; v])
  = children
    ++ map (λ v, h "meta" (<["content" := v]> {[attr := name]}) [])
         (omap id [v]).
Proof.
  intros Hattr. unfold createElement.
  destruct v as [v|]; simpl.
  2: { by rewrite app_nil_r. }
  unfold set_prop. rewrite !decide_False by done. by rewrite insert_empty.
Qed.

Lemma items_loop attr name items children :
  attr ≠ "__proto__" →
  foldl (λ children v,
           appendElement children
             (createElement h "meta" [Some attr; Some name; Some "content"; v]))
    children items
  = children
    ++ map (λ v, h "meta" (<["content" := v]> {[attr := name]}) [])
         (omap id items).
Proof.
  intros Hattr. revert children.
  induction items as [|v items IH]; intros children.
  - by rewrite app_nil_r.
  - simpl foldl. rewrite (append_meta _ _ _ _ Hattr), IH.
    rewrite <- app_assoc. f_equal. by destruct v.
Qed.

Lemma page_entry_step children jsonLd entry :
  page_entry h (children, jsonLd) entry
  = (children ++ (if is_json_ld entry.1 then [] else metas_of h entry),
     if is_json_ld entry.1 then entry.2 else jsonLd).
Proof.
  destruct entry as [name value].
  unfold page_entry, is_json_ld, metas_of. cbn [fst snd].
  destruct (String.eqb (Js.toLowerCase name) "json-ld").
  { by rewrite app_nil_r. }
  set (attr := if Js.includes ":" name && negb (String.prefix "twitter:" name)
               then "property" else "name").
  assert (attr ≠ "__proto__") as Hattr by (subst attr; by destruct (_ && _)).
  destruct value as [[text|items]|]; cbn [page_values].
  - by rewrite (append_meta _ _ _ (Some text) Hattr).
  - by rewrite (items_loop _ _ _ _ Hattr).
  - by rewrite (append_meta _ _ _ None Hattr).
Qed.

End with_h.
End PageFacts.

(** The loop over [meta.page] appends, in the order of the entries, one
    [meta] element for every string value and for every item of an array
    that is not [undefined], named by [property] when the name has a colon
    and does not start with [twitter:] and by [name] otherwise; an entry
    called json-ld in any casing gives no element, and the last such entry
    decides [jsonLd], an [undefined] value included. *)
Theorem page_loop_appends_one_meta_per_value h children jsonLd entries :
  foldl (Render.page_entry h) (children, jsonLd) entries
  = (children
     ++ flat_map (λ e, if is_json_ld e.1 then [] else metas_of h e) entries,
     match last (filter (λ e, is_json_ld e.1 = true) entries) with
     | Some e => e.2
     | None => jsonLd
     end).
Proof.
  revert children jsonLd.
  induction entries as [|e entries IH]; intros children jsonLd.
  - simpl. by rewrite app_nil_r.
  - cbn [foldl]. rewrite PageFacts.page_entry_step, IH. cbn [flat_map].
    rewrite <- app_assoc. f_equal.
    rewrite filter_cons. destruct (is_json_ld e.1) eqn:He.
    + rewrite decide_True by done. rewrite last_cons.
      by destruct (last (filter _ entries)).
    + by rewrite decide_False.
Qed.

(** ** The render step *)

(** The step writes the response at most once, and then the
    content-security-policy header. *)
Lemma step_writes s nonce res tree :
  match contentSecurityPolicy s nonce res tree with
  | Returns (res', tree') => res' = res ∨ ∃ v, res' = headers_set CSP v res
  | Throws =>
      ∃ p pr, meta_source s tree = Some p
              ∧ Hast.element_at p tree = Some ("meta", pr)
              ∧ content_of pr = Throws
  end.
Proof.
  destruct (meta_source s tree) as [p|] eqn:Hfind.
  - destruct (meta_source_element _ _ _ Hfind) as [pr Hel].
    destruct (content_of pr) as [c|] eqn:Hc.
    + assert (pr !! "content" = Some (PStr c)) as Hc'.
      { unfold content_of in Hc.
        destruct (pr !! "content") as [[]|]; by simplify_eq. }
      rewrite (contentSecurityPolicy_meta _ _ _ _ _ _ _ Hfind Hel Hc').
      destruct (header_source res); [|destruct (Hast.truthy _)]; eauto.
    + rewrite (contentSecurityPolicy_throws _ _ _ _ _ _ Hfind Hel Hc). eauto.
  - rewrite (contentSecurityPolicy_no_meta _ _ _ _ Hfind).
    destruct (header_source res) as [h|]; [destruct (Js.includes "nonce" h)|];
      eauto.
Qed.

(** [render] leaves the body and every header other than
    content-security-policy as they were; for the selector [plain] and
    without a [head.html] it leaves the whole response as it was. The
    document is the content tree exactly for the selector [plain]. The only
    throw comes from a [meta] CSP element of [head.html] whose content is
    not a string. *)
Theorem render_writes_only_the_csp_header hast h main_children parse json
    error_text nonce (state : Render.pipeline_state hast) res :
  match Render.render hast h main_children parse json error_text nonce state res
  with
  | Returns (res', doc) =>
      body res' = body res
      ∧ (∀ name, name ≠ CSP → headers res' !! name = headers res !! name)
      ∧ (Render.selector state = Some "plain"
         ∨ Js.if_truthy (Render.head_html state) = None → res' = res)
      ∧ (Render.selector state = Some "plain"
         ↔ doc = Render.BodyOnly (Render.content_hast state))
  | Throws =>
      Render.selector state ≠ Some "plain"
      ∧ ∃ html p pr,
          Js.if_truthy (Render.head_html state) = Some html
          ∧ Render.find_meta (parse html) = Some p
          ∧ Hast.element_at p (parse html) = Some ("meta", pr)
          ∧ content_of pr = Throws
  end.
Proof.
  unfold Render.render. case_bool_decide as Hplain.
  { repeat split; auto. }
  destruct (Js.if_truthy (Render.head_html state)) as [html|] eqn:Hhtml.
  - pose proof (step_writes HeadFragment nonce res (parse html)) as Hstep.
    change (contentSecurityPolicy HeadFragment) with Render.contentSecurityPolicy
      in Hstep.
    destruct (Render.contentSecurityPolicy nonce res (parse html))
      as [[res' head']|]; simpl.
    + repeat split; try done.
      * by destruct Hstep as [->|[v ->]].
      * intros name Hname. destruct Hstep as [->|[v ->]]; [done|].
        by apply headers_set_other.
      * by intros [?|?].
    + destruct Hstep as (p & pr & Hfind & Hel & Hc). eauto 10.
  - simpl. repeat split; try done.
Qed.

(** ** What render.js stamps *)

Module HeadFacts.
Import Hast.

Lemma elem_of_alter_top g i tree t pr ch t0 pr0 :
  element_at [i] tree = Some (t0, pr0) → t ≠ t0 →
  Element t pr ch ∈ alter_at g [i] tree → Element t pr ch ∈ tree.
Proof.
  unfold element_at. simpl. intros Hel Ht.
  intros [?|(x & Hx & Heq)]%StampFacts.elem_of_alter; [done|].
  rewrite Hx in Hel. simpl in Hel.
  destruct x as [t' pr' ch'| | |]; try done. simpl in Heq. by simplify_eq.
Qed.

Lemma elem_of_delete_top {A} i (l : list A) x : x ∈ delete i l → x ∈ l.
Proof. intros H. eapply elem_of_sublist; [done|apply sublist_delete]. Qed.

Lemma is_style_script pr : Render.is_style "script" pr = false.
Proof. done. Qed.

End HeadFacts.

(** After a nonce step of render.js every direct child that is not a
    [meta] is a direct child of the input fragment, with the same children
    and with the properties the stamping loops give it. *)
Lemma head_fragment_children nonce res head res' head' t pr ch :
  contentSecurityPolicy HeadFragment nonce res head = Returns (res', head') →
  nonce_branch (meta_content HeadFragment head) (header_source res) = true →
  Element t pr ch ∈ head' →
  t ≠ "meta" →
  ∃ pr0, Element t pr0 ch ∈ head
         ∧ pr = render_stamped_properties nonce
                  (either (needs_opt (meta_content HeadFragment head))
                          (needs_opt (header_source res))) t pr0.
Proof.
  intros Hrun Hon Hin Ht. unfold meta_content in *.
  assert (∀ flags tree0,
            Element t pr ch ∈ stamp HeadFragment nonce flags tree0 →
            ∃ pr0, Element t pr0 ch ∈ tree0
                   ∧ pr = render_stamped_properties nonce flags t pr0) as Hstamp.
  { intros flags tree0. rewrite StampMore.stamp_head.
    intros (n & Heq & Hn)%list_elem_of_fmap.
    destruct n as [t0 pr0 ch0| | |]; try done. simpl in Heq. simplify_eq.
    eauto. }
  destruct (meta_source HeadFragment head) as [p|] eqn:Hfind.
  - destruct (meta_source_element _ _ _ Hfind) as [pr1 Hel].
    destruct (find_meta_Some _ _ Hfind) as (i & el & -> & _).
    rewrite Hel in *.
    destruct (pr1 !! "content") as [[c| |]|] eqn:Hc;
      try (rewrite (contentSecurityPolicy_throws _ _ _ _ _ _ Hfind Hel) in Hrun;
           [done|by unfold content_of; rewrite Hc]).
    rewrite (contentSecurityPolicy_meta _ _ _ _ _ _ _ Hfind Hel Hc) in Hrun.
    pose proof (element_at_after_nonce HeadFragment nonce head [i] pr1 c
                  (header_source res) Hel) as Hel1.
    unfold tree_after_nonce in *. rewrite Hon in *.
    set (flags := either (needs c) (needs_opt (header_source res))) in *.
    set (tree0 := Hast.alter_at (set_content (rewrite_nonce nonce c)) [i] head)
      in *.
    assert (Element t pr ch ∈ stamp HeadFragment nonce flags tree0) as H1.
    { destruct (header_source res) as [h|]; [by simplify_eq|].
      destruct (Hast.truthy (pr1 !! "keep-as-meta")); simplify_eq.
      - by eapply HeadFacts.elem_of_alter_top.
      - by eapply HeadFacts.elem_of_delete_top. }
    apply Hstamp in H1 as (pr0 & Hin0 & ->). exists pr0. split; [|done].
    by eapply HeadFacts.elem_of_alter_top.
  - rewrite (contentSecurityPolicy_no_meta _ _ _ _ Hfind) in Hrun.
    unfold nonce_branch in Hon. simpl in *.
    destruct (header_source res) as [h|]; [|done]. simpl in *.
    rewrite Hon in Hrun. simplify_eq.
    apply Hstamp in Hin as (pr0 & Hin0 & ->). rewrite either_none. eauto.
Qed.

(** What render.js does guarantee: after a nonce step every script that is
    a direct child of the fragment carries the nonce when the parsed
    [script-src] of a present source contained [nonce], and is a direct
    child of the input with the properties it had otherwise; the same holds
    for direct children that are styles or stylesheet links, and
    [style-src]. *)
Theorem render_stamps_direct_children nonce res head res' head' :
  contentSecurityPolicy HeadFragment nonce res head = Returns (res', head') →
  nonce_branch (meta_content HeadFragment head) (header_source res) = true →
  let flags := either (needs_opt (meta_content HeadFragment head))
                      (needs_opt (header_source res)) in
  ∀ t pr ch, Element t pr ch ∈ head' →
    (t = "script" →
     if flags.1 then pr !! "nonce" = Some (PStr nonce)
     else Element t pr ch ∈ head)
    ∧ (Render.is_style t pr = true →
       if flags.2 then pr !! "nonce" = Some (PStr nonce)
       else Element t pr ch ∈ head).
Proof.
  intros Hrun Hon flags t pr ch Hin.
  pose proof (head_fragment_children _ _ _ _ _ t pr ch Hrun Hon Hin) as Hfrom.
  fold flags in Hfrom. split.
  - intros ->. destruct Hfrom as (pr0 & Hin0 & ->); [done|].
    rewrite StampMore.render_stamped_properties_cases. cbv zeta.
    rewrite HeadFacts.is_style_script, andb_false_r, orb_false_r.
    destruct flags.1; simpl; [|done].
    unfold set_nonce. by rewrite lookup_insert_eq.
  - intros Hm. destruct Hfrom as (pr0 & Hin0 & Hpr).
    { intros ->. by vm_compute in Hm. }
    rewrite StampMore.render_stamped_properties_cases in Hpr. cbv zeta in Hpr.
    assert (Render.is_style t pr0 = true) as Hm0.
    { destruct (_ || _) in Hpr; subst pr; [|done].
      by rewrite StampMore.is_style_set_nonce in Hm. }
    rewrite Hm0, andb_true_r in Hpr.
    destruct flags.2; simpl in *.
    + rewrite orb_true_r in Hpr. subst pr. unfold set_nonce.
      by rewrite lookup_insert_eq.
    + rewrite orb_false_r in Hpr.
      assert (String.eqb t "script" = false) as Hs.
      { destruct (String.eqb_spec t "script") as [->|]; [|done].
        by rewrite HeadFacts.is_style_script in Hm0. }
      rewrite Hs, andb_false_r in Hpr. by subst pr.
Qed.

Lemma render_stamps_direct_children_witness :
  set_nonce "V" (∅ : gmap string PropValue) !! "nonce" = Some (PStr "V")
  ∧ Samples.stylesheet ∈ [Samples.div [Samples.script]; Samples.script;
                          Samples.stylesheet].
Proof.
  assert (contentSecurityPolicy HeadFragment "V"
            (Samples.with_header Samples.script_policy)
            [Samples.div [Samples.script]; Samples.script; Samples.stylesheet]
          = Returns
              (headers_set CSP "default-src 'self'; script-src 'nonce-V'"
                 Samples.no_header,
               [Samples.div [Samples.script];
                Element "script" (set_nonce "V" ∅) [];
                Samples.stylesheet])) as Hrun
    by (vm_compute; reflexivity).
  assert (nonce_branch
            (meta_content HeadFragment
               [Samples.div [Samples.script]; Samples.script;
                Samples.stylesheet])
            (header_source (Samples.with_header Samples.script_policy))
          = true) as Hon by (vm_compute; reflexivity).
  split.
  - refine (proj1 (render_stamps_direct_children _ _ _ _ _ Hrun Hon
                     "script" (set_nonce "V" ∅) [] _) eq_refl).
    right. left.
  - refine (proj2 (render_stamps_direct_children _ _ _ _ _ Hrun Hon
                     "link" {[ "rel" := PList ["stylesheet"] ]} [] _) eq_refl).
    right. right. left.
Defined.

(** ** Instances of the statements on the nonce step *)

Lemma tree_module_stamps_governed_elements_witness :
  set_nonce "V" (∅ : gmap string PropValue) !! "nonce" = Some (PStr "V")
  ∧ ("link", {[ "rel" := PList ["stylesheet"] ]})
    ∈ Hast.elements [Samples.div [Samples.script]; Samples.stylesheet].
Proof.
  assert (contentSecurityPolicy DocumentTree "V"
            (Samples.with_header Samples.script_policy)
            [Samples.div [Samples.script]; Samples.stylesheet]
          = Returns
              (headers_set CSP "default-src 'self'; script-src 'nonce-V'"
                 Samples.no_header,
               [Samples.div [Element "script" (set_nonce "V" ∅) []];
                Samples.stylesheet])) as Hrun
    by (vm_compute; reflexivity).
  assert (nonce_branch
            (meta_content DocumentTree
               [Samples.div [Samples.script]; Samples.stylesheet])
            (header_source (Samples.with_header Samples.script_policy))
          = true) as Hon by (vm_compute; reflexivity).
  split.
  - refine (proj1 (tree_module_stamps_governed_elements _ _ _ _ _ Hrun Hon
                     "script" (set_nonce "V" ∅) _) eq_refl).
    right. left.
  - refine (proj2 (tree_module_stamps_governed_elements _ _ _ _ _ Hrun Hon
                     "link" {[ "rel" := PList ["stylesheet"] ]} _) eq_refl).
    right. right. left.
Defined.

Lemma nonce_step_rewrites_header_witness :
  headers (headers_set CSP "default-src 'self'; script-src 'nonce-V'"
             Samples.no_header) !! CSP
  = Some (rewrite_nonce "V" Samples.script_policy).
Proof.
  apply (nonce_step_rewrites_header HeadFragment "V"
           (Samples.with_header Samples.script_policy)
           [Samples.script]
           (headers_set CSP "default-src 'self'; script-src 'nonce-V'"
              Samples.no_header)
           [Element "script" (set_nonce "V" ∅) []]);
    vm_compute; reflexivity.
Defined.

Lemma rewritten_text_has_nonce_witness :
  Js.includes "nonce-V" (rewrite_nonce "V" Samples.script_policy) = true.
Proof.
  apply (rewritten_text_has_nonce "V" Samples.script_policy).
  vm_compute. reflexivity.
Defined.
